(** * SelectionSet (cdk-experimental/selection/selection-set.ts)

    A shallow embedding of the [SelectionSet] class and the properties of
    its [select] / [deselect] / [isSelected] methods.

    - The ES2015 [Map] held in [_selectionMap] is an insertion-ordered
      association list with unique keys (module [JsMap]).
    - A method is a computation over the receiver [this] that either
      completes normally or throws; what was mutated before a [throw]
      stays mutated, as in JavaScript.
    - [changed.next(ev)] appends [ev] to the log of events the stream has
      delivered, oldest first.
    - [isDevMode()] of @angular/core is an ambient flag; every method takes
      its value at the time of the call as the argument [isDevMode]. *)

From Stdlib Require Import ZArith.
From stdpp Require Import base list.

Set Default Proof Using "Type*".

(** ** The insertion-ordered map *)

Module JsMap.
Section JsMap.
Context {K V : Type} `{EqDecision K}.

(** [Map.prototype.has] *)
Fixpoint has (k : K) (m : list (K * V)) : bool :=
  match m with
  | [] => false
  | (k', _) :: m' => if decide (k = k') then true else has k m'
  end.

(** [Map.prototype.set]: an existing key keeps its position and gets the
    new value, a new key goes to the end. *)
Fixpoint set (k : K) (v : V) (m : list (K * V)) : list (K * V) :=
  match m with
  | [] => [(k, v)]
  | (k', v') :: m' =>
      if decide (k = k') then (k, v) :: m' else (k', v') :: set k v m'
  end.

(** [Map.prototype.delete]: the entry under [k] goes (keys being unique,
    there is at most one), the other entries keep their order. *)
Fixpoint delete (k : K) (m : list (K * V)) : list (K * V) :=
  match m with
  | [] => []
  | (k', v') :: m' =>
      if decide (k = k') then delete k m' else (k', v') :: delete k m'
  end.

(** [Map.prototype.clear] *)
Definition clear (m : list (K * V)) : list (K * V) := [].

(** [Array.from(m.values())] *)
Definition values (m : list (K * V)) : list V := m.*2.

Definition keys (m : list (K * V)) : list K := m.*1.

(** [Map.prototype.size] *)
Definition size (m : list (K * V)) : nat := length m.
End JsMap.
End JsMap.

(** ** Completions: normal return or a thrown error *)

(** The two [Error]s of the class:
    ['SelectionSet: not multiple selection'] and
    ['SelectionSet: index required when trackByFn is used.'] *)
Inductive Error : Type :=
  | MultipleNotAllowed
  | MissingIndex.

Inductive Completion (A : Type) : Type :=
  | Normal (a : A)
  | Throw (e : Error).
Arguments Normal {A} a.
Arguments Throw {A} e.

(** A computation over a receiver of type [S]. *)
Definition M (S A : Type) : Type := S -> Completion A * S.

Definition ret {S A : Type} (a : A) : M S A := fun s => (Normal a, s).

Definition throw {S A : Type} (e : Error) : M S A := fun s => (Throw e, s).

Definition bind {S A B : Type} (c : M S A) (k : A -> M S B) : M S B :=
  fun s =>
    match c s with
    | (Normal a, s') => k a s'
    | (Throw e, s') => (Throw e, s')
    end.

Definition getThis {S : Type} : M S S := fun s => (Normal s, s).

Definition modify {S : Type} (f : S -> S) : M S unit := fun s => (Normal tt, f s).

Notation "x <-- c ;; k" := (bind c (fun x => k))
  (at level 20, c at level 99, k at level 200, only parsing).
Notation "c ;;; k" := (bind c (fun _ => k))
  (at level 20, k at level 200, only parsing).

Ltac step_monad :=
  unfold bind, getThis, ret, throw, modify; cbn beta iota.

(** ** The class *)

Section SelectionSet.
Context {T K : Type} `{EqDecision T, EqDecision K}.

(** [interface SelectableWithIndex<T> { value: T; index?: number }];
    [index = None] is the absent ([undefined]) index. *)
Record SelectableWithIndex : Type := {
  value : T;
  index : option Z
}.

(** [interface SelectionChange<T>] *)
Record SelectionChange : Type := {
  before : list SelectableWithIndex;
  after : list SelectableWithIndex
}.

(** [T | ReturnType<TrackByFunction<T>>]: a key is the value itself (no
    [trackByFn]) or what [trackByFn] returned. One instance only ever
    produces keys of one kind, its [_trackByFn] being fixed. Equality of
    keys ([EqDecision]) stands for the SameValueZero comparison of [Map]. *)
Definition Key : Type := (T + K)%type.

(** [TrackByFunction<T>], applied as [trackByFn(select.index!, select.value)]:
    at run time the first argument is [undefined] when the index is absent. *)
Definition TrackByFunction : Type := option Z -> T -> K.

(** The fields of a [SelectionSet<T>] object; [changed] holds the events
    delivered so far. *)
Record SelectionSet : Type := {
  _multiple : bool;
  _trackByFn : option TrackByFunction;
  _selectionMap : list (Key * SelectableWithIndex);
  changed : list SelectionChange
}.

(** [constructor(private _multiple = false, private _trackByFn?)] *)
Definition new (multiple : option bool) (trackByFn : option TrackByFunction)
  : SelectionSet :=
  {| _multiple := default false multiple;
     _trackByFn := trackByFn;
     _selectionMap := [];
     changed := [] |}.

Definition withMap (f : list (Key * SelectableWithIndex) ->
                        list (Key * SelectableWithIndex))
    (this : SelectionSet) : SelectionSet :=
  {| _multiple := _multiple this;
     _trackByFn := _trackByFn this;
     _selectionMap := f (_selectionMap this);
     changed := changed this |}.

(** [this.changed.next(ev)] *)
Definition changed_next (ev : SelectionChange) : M SelectionSet unit :=
  modify (fun this =>
    {| _multiple := _multiple this;
       _trackByFn := _trackByFn this;
       _selectionMap := _selectionMap this;
       changed := changed this ++ [ev] |}).

Definition _getTrackedByValue (isDevMode : bool) (select : SelectableWithIndex)
  : M SelectionSet Key :=
  this <-- getThis ;;
  match _trackByFn this with
  | None => ret (inl (value select))
  | Some trackByFn =>
      if bool_decide (index select = None) && isDevMode
      then throw MissingIndex
      else ret (inr (trackByFn (index select) (value select)))
  end.

Definition isSelected (isDevMode : bool) (value : SelectableWithIndex)
  : M SelectionSet bool :=
  key <-- _getTrackedByValue isDevMode value ;;
  this <-- getThis ;;
  ret (JsMap.has key (_selectionMap this)).

Definition _markSelected (key : Key) (toSelect : SelectableWithIndex)
  : M SelectionSet unit :=
  modify (withMap (JsMap.set key toSelect)).

Definition _markDeselected (key : Key) : M SelectionSet unit :=
  modify (withMap (JsMap.delete key)).

Definition _getCurrentSelection : M SelectionSet (list SelectableWithIndex) :=
  this <-- getThis ;;
  ret (JsMap.values (_selectionMap this)).

(** The [for (const select of selects)] loop of [select]; [toSelect] is
    the local array the loop pushes onto. *)
Fixpoint select_loop (isDevMode : bool) (selects : list SelectableWithIndex)
    (toSelect : list SelectableWithIndex)
  : M SelectionSet (list SelectableWithIndex) :=
  match selects with
  | [] => ret toSelect
  | select :: rest =>
      b <-- isSelected isDevMode select ;;
      if b then select_loop isDevMode rest toSelect
      else
        key <-- _getTrackedByValue isDevMode select ;;
        _markSelected key select ;;;
        select_loop isDevMode rest (toSelect ++ [select])
  end.

Definition select (isDevMode : bool) (selects : list SelectableWithIndex)
  : M SelectionSet unit :=
  this <-- getThis ;;
  if negb (_multiple this) && (1 <? length selects)%nat && isDevMode
  then throw MultipleNotAllowed
  else
    before <-- _getCurrentSelection ;;
    (if negb (_multiple this) then modify (withMap JsMap.clear) else ret tt) ;;;
    toSelect <-- select_loop isDevMode selects [] ;;
    after <-- _getCurrentSelection ;;
    changed_next {| before := before; after := after |}.

(** The loop of [deselect]. *)
Fixpoint deselect_loop (isDevMode : bool) (selects : list SelectableWithIndex)
    (toDeselect : list SelectableWithIndex)
  : M SelectionSet (list SelectableWithIndex) :=
  match selects with
  | [] => ret toDeselect
  | select :: rest =>
      b <-- isSelected isDevMode select ;;
      if negb b then deselect_loop isDevMode rest toDeselect
      else
        key <-- _getTrackedByValue isDevMode select ;;
        _markDeselected key ;;;
        deselect_loop isDevMode rest (toDeselect ++ [select])
  end.

Definition deselect (isDevMode : bool) (selects : list SelectableWithIndex)
  : M SelectionSet unit :=
  this <-- getThis ;;
  if negb (_multiple this) && (1 <? length selects)%nat && isDevMode
  then throw MultipleNotAllowed
  else
    before <-- _getCurrentSelection ;;
    toDeselect <-- deselect_loop isDevMode selects [] ;;
    after <-- _getCurrentSelection ;;
    changed_next {| before := before; after := after |}.
End SelectionSet.

Arguments SelectableWithIndex T : clear implicits.
Arguments SelectionChange T : clear implicits.
Arguments SelectionSet T K : clear implicits.

(** ** What a call does when nothing is thrown, as functions on the map *)

Section Pure.
Context {T K : Type} `{EqDecision T, EqDecision K}.

(** The key [_getTrackedByValue] returns when it returns. *)
Definition keyOf (trackByFn : option (@TrackByFunction T K))
    (select : SelectableWithIndex T) : @Key T K :=
  match trackByFn with
  | None => inl (value select)
  | Some f => inr (f (index select) (value select))
  end.

(** The condition under which [_getTrackedByValue] throws. *)
Definition missingIndex (isDevMode : bool)
    (trackByFn : option (@TrackByFunction T K))
    (select : SelectableWithIndex T) : bool :=
  match trackByFn with
  | None => false
  | Some _ => bool_decide (index select = None) && isDevMode
  end.

(** The condition under which [select] and [deselect] throw at entry. *)
Definition notMultiple (isDevMode : bool) (this : SelectionSet T K)
    (selects : list (SelectableWithIndex T)) : bool :=
  negb (_multiple this) && (1 <? length selects)%nat && isDevMode.

Fixpoint selectAll (trackByFn : option (@TrackByFunction T K))
    (selects : list (SelectableWithIndex T))
    (m : list (@Key T K * SelectableWithIndex T))
  : list (@Key T K * SelectableWithIndex T) :=
  match selects with
  | [] => m
  | e :: rest =>
      selectAll trackByFn rest
        (if JsMap.has (keyOf trackByFn e) m then m
         else JsMap.set (keyOf trackByFn e) e m)
  end.

Fixpoint deselectAll (trackByFn : option (@TrackByFunction T K))
    (selects : list (SelectableWithIndex T))
    (m : list (@Key T K * SelectableWithIndex T))
  : list (@Key T K * SelectableWithIndex T) :=
  match selects with
  | [] => m
  | e :: rest =>
      deselectAll trackByFn rest
        (if JsMap.has (keyOf trackByFn e) m
         then JsMap.delete (keyOf trackByFn e) m else m)
  end.

(** The object after a call that returned: new map, one more event. *)
Definition returned (this : SelectionSet T K)
    (m' : list (@Key T K * SelectableWithIndex T)) : SelectionSet T K :=
  {| _multiple := _multiple this;
     _trackByFn := _trackByFn this;
     _selectionMap := m';
     changed := changed this ++
       [ {| before := JsMap.values (_selectionMap this);
            after := JsMap.values m' |} ] |}.

(** What a loop leaves alone, however it ends. *)
Definition sameFrame (this this' : SelectionSet T K) : Prop :=
  _multiple this' = _multiple this /\
  _trackByFn this' = _trackByFn this /\
  changed this' = changed this.

(** What the object holds in single mode. *)
Definition singleInv (this : SelectionSet T K) : Prop :=
  _multiple this = false /\ JsMap.size (_selectionMap this) <= 1.

(** A map as the class builds it: keys are unique and every entry sits
    under its own derived key. *)
Definition consistent (trackByFn : option (@TrackByFunction T K))
    (m : list (@Key T K * SelectableWithIndex T)) : Prop :=
  NoDup (JsMap.keys m) /\ Forall (fun p => p.1 = keyOf trackByFn p.2) m.


End Pure.

(** ** Sequences of calls on one object *)

Inductive Call (T : Type) : Type :=
  | CallSelect (isDevMode : bool) (selects : list (SelectableWithIndex T))
  | CallDeselect (isDevMode : bool) (selects : list (SelectableWithIndex T)).
Arguments CallSelect {T} isDevMode selects.
Arguments CallDeselect {T} isDevMode selects.

Section Calls.
Context {T K : Type} `{EqDecision T, EqDecision K}.

Definition invoke (c : Call T) : M (SelectionSet T K) unit :=
  match c with
  | CallSelect dev es => select dev es
  | CallDeselect dev es => deselect dev es
  end.

(** One call; a caller that catches the error goes on with the object as
    the throwing call left it. *)
Definition call (c : Call T) (this : SelectionSet T K) : SelectionSet T K :=
  (invoke c this).2.

Definition calls (cs : list (Call T)) (this : SelectionSet T K)
  : SelectionSet T K :=
  fold_left (fun this c => call c this) cs this.

Definition callFlag (c : Call T) : bool :=
  match c with
  | CallSelect dev _ => dev
  | CallDeselect dev _ => dev
  end.

Definition callEntries (c : Call T) : list (SelectableWithIndex T) :=
  match c with
  | CallSelect _ es => es
  | CallDeselect _ es => es
  end.

(** A [select] with more than one entry is only made with the
    diagnostic flag on. *)
Definition guarded (c : Call T) : bool :=
  match c with
  | CallSelect dev es => (length es <=? 1)%nat || dev
  | CallDeselect _ _ => true
  end.
End Calls.

(** ** Sample objects: values are integers, tracked by their residue mod 10 *)

Module Sample.
Definition entry (v : Z) (i : option Z) : SelectableWithIndex Z :=
  {| value := v; index := i |}.

Definition a : SelectableWithIndex Z := entry 1 (Some 0%Z).
Definition b : SelectableWithIndex Z := entry 2 (Some 1%Z).
Definition c : SelectableWithIndex Z := entry 3 (Some 2%Z).
Definition noIndex : SelectableWithIndex Z := entry 7 None.

Definition byResidue : @TrackByFunction Z Z := fun _ v => (v mod 10)%Z.

Definition single : SelectionSet Z Z := new None None.
Definition multi : SelectionSet Z Z := new (Some true) None.
Definition singleTracked : SelectionSet Z Z := new (Some false) (Some byResidue).
Definition multiTracked : SelectionSet Z Z := new (Some true) (Some byResidue).
End Sample.

(** ** Facts about the map *)

Section JsMapFacts.
Context {K V : Type} `{EqDecision K}.
Implicit Types (k : K) (v : V) (m : list (K * V)).

Lemma has_true k m : JsMap.has k m = true <-> k ∈ JsMap.keys m.
Proof.
  unfold JsMap.keys. induction m as [|[k' v'] m IH]; simpl.
  - split; [discriminate | intros Hin; inversion Hin].
  - rewrite elem_of_cons. destruct (decide (k = k')) as [->|Hne].
    + split; auto.
    + rewrite IH. split; [auto | intros [?|?]; [contradiction | assumption]].
Qed.

Lemma has_false k m : JsMap.has k m = false <-> k ∉ JsMap.keys m.
Proof.
  rewrite <- has_true. destruct (JsMap.has k m); split; congruence.
Qed.

Lemma set_absent k v m :
  JsMap.has k m = false -> JsMap.set k v m = m ++ [(k, v)].
Proof.
  induction m as [|[k' v'] m IH]; simpl; [reflexivity|].
  destruct (decide (k = k')); [discriminate|].
  intros Hm. now rewrite IH.
Qed.

Lemma has_set k k' v m :
  JsMap.has k' (JsMap.set k v m) =
  if decide (k' = k) then true else JsMap.has k' m.
Proof.
  induction m as [|[k0 v0] m IH]; simpl.
  - destruct (decide (k' = k)); reflexivity.
  - destruct (decide (k = k0)) as [->|Hne]; simpl.
    + destruct (decide (k' = k0)); reflexivity.
    + rewrite IH. destruct (decide (k' = k0)) as [->|]; [|reflexivity].
      destruct (decide (k0 = k)); reflexivity.
Qed.

Lemma delete_filter k m :
  JsMap.delete k m = filter (fun p => p.1 ≠ k) m.
Proof.
  induction m as [|[k' v'] m IH]; simpl; [reflexivity|].
  destruct (decide (k = k')) as [->|Hne].
  - rewrite filter_cons_False; [exact IH | simpl; auto].
  - rewrite filter_cons_True; [now rewrite IH | simpl; congruence].
Qed.

Lemma delete_absent k m : JsMap.has k m = false -> JsMap.delete k m = m.
Proof.
  induction m as [|[k' v'] m IH]; simpl; [reflexivity|].
  destruct (decide (k = k')); [discriminate|].
  intros Hm. now rewrite IH.
Qed.

Lemma has_delete k k' m :
  JsMap.has k' (JsMap.delete k m) =
  if decide (k' = k) then false else JsMap.has k' m.
Proof.
  induction m as [|[k0 v0] m IH]; simpl.
  - destruct (decide (k' = k)); reflexivity.
  - destruct (decide (k = k0)) as [->|Hne]; simpl.
    + rewrite IH. destruct (decide (k' = k0)); reflexivity.
    + rewrite IH. destruct (decide (k' = k0)) as [->|]; [|reflexivity].
      destruct (decide (k0 = k)); [congruence | reflexivity].
Qed.

Lemma size_delete k m : JsMap.size (JsMap.delete k m) <= JsMap.size m.
Proof.
  unfold JsMap.size. induction m as [|[k' v'] m IH]; simpl; [lia|].
  destruct (decide (k = k')); simpl; lia.
Qed.

Lemma keys_delete k m :
  JsMap.keys (JsMap.delete k m) = filter (fun k' => k' ≠ k) (JsMap.keys m).
Proof.
  unfold JsMap.keys. induction m as [|[k' v'] m IH]; [reflexivity|].
  cbn [JsMap.delete]. rewrite fmap_cons. cbn [fst].
  destruct (decide (k = k')) as [->|Hne].
  - rewrite filter_cons_False; [exact IH | auto].
  - rewrite filter_cons_True; [|congruence].
    rewrite fmap_cons. cbn [fst]. now rewrite IH.
Qed.

(** Keys stay unique: the list is a faithful picture of a [Map]. *)
Lemma NoDup_keys_set k v m :
  NoDup (JsMap.keys m) -> NoDup (JsMap.keys (JsMap.set k v m)).
Proof.
  unfold JsMap.keys. induction m as [|[k' v'] m IH]; simpl; intros Hnd.
  - apply NoDup_singleton.
  - apply NoDup_cons in Hnd as [Hnin Hnd].
    destruct (decide (k = k')) as [->|Hne]; simpl.
    + now apply NoDup_cons.
    + apply NoDup_cons. split; [|auto].
      change (k' ∉ JsMap.keys (JsMap.set k v m)).
      rewrite <- has_false, has_set.
      destruct (decide (k' = k)); [congruence|]. now apply has_false.
Qed.

Lemma NoDup_keys_delete k m :
  NoDup (JsMap.keys m) -> NoDup (JsMap.keys (JsMap.delete k m)).
Proof. rewrite keys_delete. apply NoDup_filter. Qed.
End JsMapFacts.

(** ** The methods, equation by equation *)

Section Methods.
Context {T K : Type} `{EqDecision T, EqDecision K}.
Implicit Types (this : SelectionSet T K) (e : SelectableWithIndex T)
  (es acc : list (SelectableWithIndex T)).

Lemma getTrackedByValue_eq dev e this :
  _getTrackedByValue dev e this =
  (if missingIndex dev (_trackByFn this) e then Throw MissingIndex
   else Normal (keyOf (_trackByFn this) e), this).
Proof.
  unfold _getTrackedByValue, missingIndex, keyOf. step_monad.
  destruct (_trackByFn this); [|reflexivity].
  destruct (bool_decide (index e = None) && dev); reflexivity.
Qed.

Lemma isSelected_eq dev e this :
  isSelected dev e this =
  (if missingIndex dev (_trackByFn this) e then Throw MissingIndex
   else Normal (JsMap.has (keyOf (_trackByFn this) e) (_selectionMap this)),
   this).
Proof.
  unfold isSelected, bind at 1. rewrite getTrackedByValue_eq.
  destruct (missingIndex dev (_trackByFn this) e); reflexivity.
Qed.

(** One turn of the [select] loop on an entry whose key can be derived. *)
Lemma select_loop_cons dev e es acc this :
  missingIndex dev (_trackByFn this) e = false ->
  select_loop dev (e :: es) acc this =
  if JsMap.has (keyOf (_trackByFn this) e) (_selectionMap this)
  then select_loop dev es acc this
  else select_loop dev es (acc ++ [e])
         (withMap (JsMap.set (keyOf (_trackByFn this) e) e) this).
Proof.
  intros Hk. cbn [select_loop]. unfold bind at 1.
  rewrite isSelected_eq, Hk.
  destruct (JsMap.has _ _); [reflexivity|].
  unfold bind at 1. rewrite getTrackedByValue_eq, Hk. reflexivity.
Qed.

Lemma select_loop_cons_throw dev e es acc this :
  missingIndex dev (_trackByFn this) e = true ->
  select_loop dev (e :: es) acc this = (Throw MissingIndex, this).
Proof.
  intros Hk. cbn [select_loop]. unfold bind at 1.
  now rewrite isSelected_eq, Hk.
Qed.

Lemma deselect_loop_cons dev e es acc this :
  missingIndex dev (_trackByFn this) e = false ->
  deselect_loop dev (e :: es) acc this =
  if JsMap.has (keyOf (_trackByFn this) e) (_selectionMap this)
  then deselect_loop dev es (acc ++ [e])
         (withMap (JsMap.delete (keyOf (_trackByFn this) e)) this)
  else deselect_loop dev es acc this.
Proof.
  intros Hk. cbn [deselect_loop]. unfold bind at 1.
  rewrite isSelected_eq, Hk.
  destruct (JsMap.has _ _); cbn [negb]; [|reflexivity].
  unfold bind at 1. rewrite getTrackedByValue_eq, Hk. reflexivity.
Qed.

Lemma deselect_loop_cons_throw dev e es acc this :
  missingIndex dev (_trackByFn this) e = true ->
  deselect_loop dev (e :: es) acc this = (Throw MissingIndex, this).
Proof.
  intros Hk. cbn [deselect_loop]. unfold bind at 1.
  now rewrite isSelected_eq, Hk.
Qed.

(** The loops return when every key can be derived, and then the map is
    the one [selectAll] / [deselectAll] computes. *)
Lemma select_loop_returns dev es : forall acc this,
  Forall (fun e => missingIndex dev (_trackByFn this) e = false) es ->
  exists toSelect,
    select_loop dev es acc this =
    (Normal toSelect,
     withMap (fun _ => selectAll (_trackByFn this) es (_selectionMap this))
       this).
Proof.
  induction es as [|e es IH]; intros acc this Hall.
  - exists acc. destruct this; reflexivity.
  - apply Forall_cons in Hall as [He Hes].
    rewrite select_loop_cons by exact He. cbn [selectAll].
    destruct (JsMap.has _ _).
    + apply IH, Hes.
    + destruct (IH (acc ++ [e])
        (withMap (JsMap.set (keyOf (_trackByFn this) e) e) this) Hes)
        as [ts Hts].
      exists ts. rewrite Hts. reflexivity.
Qed.

Lemma deselect_loop_returns dev es : forall acc this,
  Forall (fun e => missingIndex dev (_trackByFn this) e = false) es ->
  exists toDeselect,
    deselect_loop dev es acc this =
    (Normal toDeselect,
     withMap (fun _ => deselectAll (_trackByFn this) es (_selectionMap this))
       this).
Proof.
  induction es as [|e es IH]; intros acc this Hall.
  - exists acc. destruct this; reflexivity.
  - apply Forall_cons in Hall as [He Hes].
    rewrite deselect_loop_cons by exact He. cbn [deselectAll].
    destruct (JsMap.has _ _).
    + destruct (IH (acc ++ [e])
        (withMap (JsMap.delete (keyOf (_trackByFn this) e)) this) Hes)
        as [ts Hts].
      exists ts. rewrite Hts. reflexivity.
    + apply IH, Hes.
Qed.

Lemma sameFrame_refl this : sameFrame this this.
Proof. repeat split. Qed.

Lemma select_loop_frame dev es : forall acc this,
  sameFrame this (select_loop dev es acc this).2.
Proof.
  induction es as [|e es IH]; intros acc this; [apply sameFrame_refl|].
  destruct (missingIndex dev (_trackByFn this) e) eqn:He.
  - rewrite select_loop_cons_throw by exact He. apply sameFrame_refl.
  - rewrite select_loop_cons by exact He.
    destruct (JsMap.has _ _); [apply IH|].
    destruct (IH (acc ++ [e])
      (withMap (JsMap.set (keyOf (_trackByFn this) e) e) this))
      as (H1 & H2 & H3).
    repeat split; assumption.
Qed.

Lemma deselect_loop_frame dev es : forall acc this,
  sameFrame this (deselect_loop dev es acc this).2.
Proof.
  induction es as [|e es IH]; intros acc this; [apply sameFrame_refl|].
  destruct (missingIndex dev (_trackByFn this) e) eqn:He.
  - rewrite deselect_loop_cons_throw by exact He. apply sameFrame_refl.
  - rewrite deselect_loop_cons by exact He.
    destruct (JsMap.has _ _); [|apply IH].
    destruct (IH (acc ++ [e])
      (withMap (JsMap.delete (keyOf (_trackByFn this) e)) this))
      as (H1 & H2 & H3).
    repeat split; assumption.
Qed.

(** A loop throws [MissingIndex] as soon as one key cannot be derived. *)
Lemma select_loop_throws dev es : forall acc this,
  Exists (fun e => missingIndex dev (_trackByFn this) e = true) es ->
  (select_loop dev es acc this).1 = Throw MissingIndex.
Proof.
  induction es as [|e es IH]; intros acc this Hex; [inversion Hex|].
  destruct (missingIndex dev (_trackByFn this) e) eqn:He.
  - now rewrite select_loop_cons_throw.
  - apply Exists_cons in Hex as [Hex|Hex]; [congruence|].
    rewrite select_loop_cons by exact He.
    destruct (JsMap.has _ _); apply IH; exact Hex.
Qed.

Lemma deselect_loop_throws dev es : forall acc this,
  Exists (fun e => missingIndex dev (_trackByFn this) e = true) es ->
  (deselect_loop dev es acc this).1 = Throw MissingIndex.
Proof.
  induction es as [|e es IH]; intros acc this Hex; [inversion Hex|].
  destruct (missingIndex dev (_trackByFn this) e) eqn:He.
  - now rewrite deselect_loop_cons_throw.
  - apply Exists_cons in Hex as [Hex|Hex]; [congruence|].
    rewrite deselect_loop_cons by exact He.
    destruct (JsMap.has _ _); apply IH; exact Hex.
Qed.

(** [deselect] never adds an entry. *)
Lemma deselect_loop_size dev es : forall acc this,
  JsMap.size (_selectionMap (deselect_loop dev es acc this).2)
  <= JsMap.size (_selectionMap this).
Proof.
  induction es as [|e es IH]; intros acc this; [reflexivity|].
  destruct (missingIndex dev (_trackByFn this) e) eqn:He.
  - now rewrite deselect_loop_cons_throw.
  - rewrite deselect_loop_cons by exact He.
    destruct (JsMap.has _ _); [|apply IH].
    etransitivity; [apply IH|]. cbn. apply size_delete.
Qed.
End Methods.

Section Calls_eq.
Context {T K : Type} `{EqDecision T, EqDecision K}.
Implicit Types (this : SelectionSet T K) (e : SelectableWithIndex T)
  (es acc : list (SelectableWithIndex T)).

(** [select] and [deselect] as: the entry check, then the loop, then the
    event. *)
Lemma select_unfold dev es this :
  select dev es this =
  if notMultiple dev this es then (Throw MultipleNotAllowed, this)
  else
    match select_loop dev es []
            (if _multiple this then this else withMap JsMap.clear this) with
    | (Normal _, this') =>
        (Normal tt,
         {| _multiple := _multiple this';
            _trackByFn := _trackByFn this';
            _selectionMap := _selectionMap this';
            changed := changed this' ++
              [ {| before := JsMap.values (_selectionMap this);
                   after := JsMap.values (_selectionMap this') |} ] |})
    | (Throw err, this') => (Throw err, this')
    end.
Proof.
  unfold select, notMultiple, _getCurrentSelection, changed_next.
  step_monad.
  destruct (negb (_multiple this) && (1 <? length es)%nat && dev);
    [reflexivity|].
  destruct (_multiple this); cbn [negb];
    destruct (select_loop dev es [] _) as [[ts|err] this']; reflexivity.
Qed.

Lemma deselect_unfold dev es this :
  deselect dev es this =
  if notMultiple dev this es then (Throw MultipleNotAllowed, this)
  else
    match deselect_loop dev es [] this with
    | (Normal _, this') =>
        (Normal tt,
         {| _multiple := _multiple this';
            _trackByFn := _trackByFn this';
            _selectionMap := _selectionMap this';
            changed := changed this' ++
              [ {| before := JsMap.values (_selectionMap this);
                   after := JsMap.values (_selectionMap this') |} ] |})
    | (Throw err, this') => (Throw err, this')
    end.
Proof.
  unfold deselect, notMultiple, _getCurrentSelection, changed_next.
  step_monad.
  destruct (negb (_multiple this) && (1 <? length es)%nat && dev);
    [reflexivity|].
  destruct (deselect_loop dev es [] this) as [[ts|err] this']; reflexivity.
Qed.

Lemma select_notMultiple dev es this :
  notMultiple dev this es = true ->
  select dev es this = (Throw MultipleNotAllowed, this).
Proof. intros Hg. now rewrite select_unfold, Hg. Qed.

Lemma deselect_notMultiple dev es this :
  notMultiple dev this es = true ->
  deselect dev es this = (Throw MultipleNotAllowed, this).
Proof. intros Hg. now rewrite deselect_unfold, Hg. Qed.

(** A call that passes the entry check and derives every key returns. *)
Lemma select_returns dev es this :
  notMultiple dev this es = false ->
  Forall (fun e => missingIndex dev (_trackByFn this) e = false) es ->
  select dev es this =
  (Normal tt,
   returned this
     (selectAll (_trackByFn this) es
        (if _multiple this then _selectionMap this else []))).
Proof.
  intros Hg Hall. rewrite select_unfold, Hg.
  destruct (select_loop_returns dev es []
    (if _multiple this then this else withMap JsMap.clear this))
    as [ts Hts].
  { destruct (_multiple this); exact Hall. }
  rewrite Hts. destruct (_multiple this); reflexivity.
Qed.

Lemma deselect_returns dev es this :
  notMultiple dev this es = false ->
  Forall (fun e => missingIndex dev (_trackByFn this) e = false) es ->
  deselect dev es this =
  (Normal tt,
   returned this (deselectAll (_trackByFn this) es (_selectionMap this))).
Proof.
  intros Hg Hall. rewrite deselect_unfold, Hg.
  destruct (deselect_loop_returns dev es [] this Hall) as [ts Hts].
  rewrite Hts. reflexivity.
Qed.

(** A call that passes the entry check and meets an underivable key
    throws [MissingIndex] without an event. *)
Lemma select_missing dev es this :
  notMultiple dev this es = false ->
  Exists (fun e => missingIndex dev (_trackByFn this) e = true) es ->
  (select dev es this).1 = Throw MissingIndex /\
  changed (select dev es this).2 = changed this.
Proof.
  intros Hg Hex. rewrite select_unfold, Hg.
  set (this0 := if _multiple this then this else withMap JsMap.clear this).
  assert (Hex0 : Exists
    (fun e => missingIndex dev (_trackByFn this0) e = true) es).
  { subst this0. destruct (_multiple this); exact Hex. }
  pose proof (select_loop_throws dev es [] this0 Hex0) as Hthrow.
  pose proof (select_loop_frame dev es [] this0) as (_ & _ & Hch).
  destruct (select_loop dev es [] this0) as [[ts|err] this']; cbn in *.
  - discriminate.
  - split; [congruence|]. rewrite Hch. subst this0.
    destruct (_multiple this); reflexivity.
Qed.

Lemma deselect_missing dev es this :
  notMultiple dev this es = false ->
  Exists (fun e => missingIndex dev (_trackByFn this) e = true) es ->
  (deselect dev es this).1 = Throw MissingIndex /\
  changed (deselect dev es this).2 = changed this.
Proof.
  intros Hg Hex. rewrite deselect_unfold, Hg.
  pose proof (deselect_loop_throws dev es [] this Hex) as Hthrow.
  pose proof (deselect_loop_frame dev es [] this) as (_ & _ & Hch).
  destruct (deselect_loop dev es [] this) as [[ts|err] this']; cbn in *.
  - discriminate.
  - split; [congruence | assumption].
Qed.

(** Either every key can be derived or one cannot. *)
Lemma derivable_dec dev (tb : option (@TrackByFunction T K)) es :
  Forall (fun e => missingIndex dev tb e = false) es \/
  Exists (fun e => missingIndex dev tb e = true) es.
Proof.
  induction es as [|e es [IH|IH]].
  - left. constructor.
  - destruct (missingIndex dev tb e) eqn:He.
    + right. now constructor.
    + left. now constructor.
  - right. now apply Exists_cons_tl.
Qed.

(** The mode and the key function are fixed for the object's lifetime. *)
Lemma select_config dev es this :
  _multiple (select dev es this).2 = _multiple this /\
  _trackByFn (select dev es this).2 = _trackByFn this.
Proof.
  rewrite select_unfold. destruct (notMultiple dev this es); [split; reflexivity|].
  set (this0 := if _multiple this then this else withMap JsMap.clear this).
  pose proof (select_loop_frame dev es [] this0) as (Hm & Htb & _).
  assert (_multiple this0 = _multiple this /\
          _trackByFn this0 = _trackByFn this) as [E1 E2].
  { subst this0. destruct (_multiple this) eqn:E; cbn; now split. }
  destruct (select_loop dev es [] this0) as [[ts|err] this']; cbn in *;
    split; congruence.
Qed.

Lemma deselect_config dev es this :
  _multiple (deselect dev es this).2 = _multiple this /\
  _trackByFn (deselect dev es this).2 = _trackByFn this.
Proof.
  rewrite deselect_unfold. destruct (notMultiple dev this es); [split; reflexivity|].
  pose proof (deselect_loop_frame dev es [] this) as (Hm & Htb & _).
  destruct (deselect_loop dev es [] this) as [[ts|err] this']; cbn in *;
    split; congruence.
Qed.

Lemma deselect_size dev es this :
  JsMap.size (_selectionMap (deselect dev es this).2)
  <= JsMap.size (_selectionMap this).
Proof.
  rewrite deselect_unfold. destruct (notMultiple dev this es); [reflexivity|].
  pose proof (deselect_loop_size dev es [] this) as Hsz.
  destruct (deselect_loop dev es [] this) as [[ts|err] this']; exact Hsz.
Qed.
End Calls_eq.

(** ** Membership after the loops *)

Section Membership.
Context {T K : Type} `{EqDecision T, EqDecision K}.
Implicit Types (tb : option (@TrackByFunction T K))
  (e : SelectableWithIndex T) (es : list (SelectableWithIndex T))
  (m : list (@Key T K * SelectableWithIndex T)).

Lemma selectAll_keeps tb es : forall m k,
  JsMap.has k m = true -> JsMap.has k (selectAll tb es m) = true.
Proof.
  induction es as [|e es IH]; intros m k Hk; [exact Hk|].
  cbn [selectAll]. apply IH.
  destruct (JsMap.has (keyOf tb e) m); [exact Hk|].
  rewrite has_set, Hk. now destruct (decide _).
Qed.

Lemma selectAll_selects tb es : forall m e,
  e ∈ es -> JsMap.has (keyOf tb e) (selectAll tb es m) = true.
Proof.
  induction es as [|e0 es IH]; intros m e Hin; [inversion Hin|].
  cbn [selectAll]. apply elem_of_cons in Hin as [->|Hin]; [|now apply IH].
  apply selectAll_keeps.
  destruct (JsMap.has (keyOf tb e0) m) eqn:Hh; [exact Hh|].
  rewrite has_set. now destruct (decide _).
Qed.

Lemma deselectAll_keeps_out tb es : forall m k,
  JsMap.has k m = false -> JsMap.has k (deselectAll tb es m) = false.
Proof.
  induction es as [|e es IH]; intros m k Hk; [exact Hk|].
  cbn [deselectAll]. apply IH.
  destruct (JsMap.has (keyOf tb e) m); [|exact Hk].
  rewrite has_delete, Hk. now destruct (decide _).
Qed.

Lemma deselectAll_deselects tb es : forall m e,
  e ∈ es -> JsMap.has (keyOf tb e) (deselectAll tb es m) = false.
Proof.
  induction es as [|e0 es IH]; intros m e Hin; [inversion Hin|].
  cbn [deselectAll]. apply elem_of_cons in Hin as [->|Hin]; [|now apply IH].
  apply deselectAll_keeps_out.
  destruct (JsMap.has (keyOf tb e0) m) eqn:Hh; [|exact Hh].
  rewrite has_delete. now destruct (decide _).
Qed.

(** Reading a derived key back from [_getTrackedByValue]. *)
Lemma derived_inv dev e (this : SelectionSet T K) k :
  (_getTrackedByValue dev e this).1 = Normal k ->
  missingIndex dev (_trackByFn this) e = false /\
  k = keyOf (_trackByFn this) e.
Proof.
  rewrite getTrackedByValue_eq.
  destruct (missingIndex dev (_trackByFn this) e); cbn; [discriminate|].
  intros [= <-]. now split.
Qed.

Lemma notMultiple_small dev (this : SelectionSet T K) es :
  length es <= 1 -> notMultiple dev this es = false.
Proof.
  intros Hlen. unfold notMultiple.
  replace (1 <? length es)%nat with false
    by (symmetry; apply Nat.ltb_ge; exact Hlen).
  now rewrite andb_false_r.
Qed.
Lemma notMultiple_true_iff dev (this : SelectionSet T K) es :
  notMultiple dev this es = true <->
  _multiple this = false /\ 1 < length es /\ dev = true.
Proof.
  unfold notMultiple. rewrite !andb_true_iff, negb_true_iff, Nat.ltb_lt.
  tauto.
Qed.

Lemma missingIndex_true_iff dev (f : @TrackByFunction T K) e :
  missingIndex dev (Some f) e = true <-> index e = None /\ dev = true.
Proof.
  cbn. rewrite andb_true_iff, bool_decide_eq_true. tauto.
Qed.

Lemma Exists_missingIndex dev (f : @TrackByFunction T K) es :
  Exists (fun e => missingIndex dev (Some f) e = true) es <->
  dev = true /\ Exists (fun e => index e = None) es.
Proof.
  rewrite !Exists_exists. split.
  - intros (e & Hin & He). apply missingIndex_true_iff in He as [Hi Hd].
    split; [exact Hd | exists e; now split].
  - intros (Hd & e & Hin & Hi). exists e. split; [exact Hin|].
    now apply missingIndex_true_iff.
Qed.

Lemma Forall_not_Exists_missingIndex dev tb es :
  Forall (fun e => missingIndex dev tb e = false) es ->
  ~ Exists (fun e => missingIndex dev tb e = true) es.
Proof.
  rewrite Forall_forall, Exists_exists. intros Hall (e & Hin & He).
  specialize (Hall e Hin). congruence.
Qed.
End Membership.

(** ** Keys stay unique in every object the calls can produce *)

Section UniqueKeys.
Context {T K : Type} `{EqDecision T, EqDecision K}.
Implicit Types (this : SelectionSet T K) (e : SelectableWithIndex T)
  (es acc : list (SelectableWithIndex T)).

Lemma select_loop_NoDup dev es : forall acc this,
  NoDup (JsMap.keys (_selectionMap this)) ->
  NoDup (JsMap.keys (_selectionMap (select_loop dev es acc this).2)).
Proof.
  induction es as [|e es IH]; intros acc this Hnd; [exact Hnd|].
  destruct (missingIndex dev (_trackByFn this) e) eqn:He.
  - now rewrite select_loop_cons_throw.
  - rewrite select_loop_cons by exact He.
    destruct (JsMap.has _ _); apply IH; [exact Hnd|].
    cbn. now apply NoDup_keys_set.
Qed.

Lemma deselect_loop_NoDup dev es : forall acc this,
  NoDup (JsMap.keys (_selectionMap this)) ->
  NoDup (JsMap.keys (_selectionMap (deselect_loop dev es acc this).2)).
Proof.
  induction es as [|e es IH]; intros acc this Hnd; [exact Hnd|].
  destruct (missingIndex dev (_trackByFn this) e) eqn:He.
  - now rewrite deselect_loop_cons_throw.
  - rewrite deselect_loop_cons by exact He.
    destruct (JsMap.has _ _); apply IH; [|exact Hnd].
    cbn. now apply NoDup_keys_delete.
Qed.

Lemma call_NoDup (c : Call T) this :
  NoDup (JsMap.keys (_selectionMap this)) ->
  NoDup (JsMap.keys (_selectionMap (call c this))).
Proof.
  intros Hnd. destruct c as [dev es|dev es]; unfold call; cbn [invoke].
  - rewrite select_unfold. destruct (notMultiple dev this es); [exact Hnd|].
    set (this0 := if _multiple this then this else withMap JsMap.clear this).
    assert (Hnd0 : NoDup (JsMap.keys (_selectionMap this0))).
    { subst this0. destruct (_multiple this); [exact Hnd | apply NoDup_nil_2]. }
    pose proof (select_loop_NoDup dev es [] this0 Hnd0) as Hloop.
    destruct (select_loop dev es [] this0) as [[ts|err] this']; exact Hloop.
  - rewrite deselect_unfold. destruct (notMultiple dev this es); [exact Hnd|].
    pose proof (deselect_loop_NoDup dev es [] this Hnd) as Hloop.
    destruct (deselect_loop dev es [] this) as [[ts|err] this']; exact Hloop.
Qed.

Lemma calls_NoDup (cs : list (Call T)) multiple trackByFn :
  NoDup (JsMap.keys
    (_selectionMap (calls cs (new multiple trackByFn : SelectionSet T K)))).
Proof.
  unfold calls.
  assert (Hnew : NoDup (JsMap.keys
    (_selectionMap (new multiple trackByFn : SelectionSet T K))))
    by apply NoDup_nil_2.
  revert Hnew. generalize (new multiple trackByFn : SelectionSet T K).
  induction cs as [|c cs IH]; intros this Hnd; [exact Hnd|].
  cbn [fold_left]. apply IH. now apply call_NoDup.
Qed.
End UniqueKeys.

(** ** Single mode: the size of the map *)

Section SingleMode.
Context {T K : Type} `{EqDecision T, EqDecision K}.
Implicit Types (this : SelectionSet T K) (e : SelectableWithIndex T)
  (es : list (SelectableWithIndex T)).

Lemma select_small_size dev es this :
  _multiple this = false -> length es <= 1 ->
  JsMap.size (_selectionMap (select dev es this).2) <= 1.
Proof.
  intros Hm Hlen. rewrite select_unfold, notMultiple_small by exact Hlen.
  rewrite Hm. destruct es as [|e [|e' es]]; [cbn; lia | | cbn in Hlen; lia].
  destruct (missingIndex dev (_trackByFn (withMap JsMap.clear this)) e) eqn:He.
  - rewrite select_loop_cons_throw by exact He. cbn. lia.
  - rewrite select_loop_cons by exact He. cbn. lia.
Qed.

Lemma call_singleInv (c : Call T) this :
  guarded c = true -> singleInv this -> singleInv (call c this).
Proof.
  intros Hg [Hm Hsz]. destruct c as [dev es|dev es]; unfold call; cbn [invoke].
  - split; [destruct (select_config dev es this); congruence|].
    cbn in Hg. apply orb_true_iff in Hg as [Hlen|Hdev].
    + apply select_small_size; [exact Hm|]. now apply Nat.leb_le.
    + destruct (Nat.le_gt_cases (length es) 1) as [Hlen|Hlen].
      * now apply select_small_size.
      * rewrite select_notMultiple; [exact Hsz|].
        unfold notMultiple. rewrite Hm, Hdev.
        apply Nat.ltb_lt in Hlen. now rewrite Hlen.
  - split; [destruct (deselect_config dev es this); congruence|].
    etransitivity; [apply deselect_size | exact Hsz].
Qed.

Lemma calls_singleInv (cs : list (Call T)) : forall this,
  forallb guarded cs = true -> singleInv this -> singleInv (calls cs this).
Proof.
  induction cs as [|c cs IH]; intros this Hg Hinv; [exact Hinv|].
  cbn in Hg. apply andb_true_iff in Hg as [Hc Hcs].
  cbn [calls fold_left]. apply IH; [exact Hcs|].
  now apply call_singleInv.
Qed.
End SingleMode.

(** ** The claims *)

Section Claims.
Context {T K : Type} `{EqDecision T, EqDecision K}.
Implicit Types (this : SelectionSet T K) (e a b c x : SelectableWithIndex T)
  (es : list (SelectableWithIndex T)).

(** C1, as amended: for a [SelectionSet] constructed with [multiple = false]
    (given or by default), after any sequence of [select] and [deselect]
    calls in which every [select] with more than one entry is made with the
    diagnostic flag on, the selection map holds at most one entry. Calls
    that throw are part of the sequence. *)
Theorem C1_single_mode_at_most_one_entry
    (multiple : option bool) (trackByFn : option (@TrackByFunction T K))
    (cs : list (Call T)) :
  default false multiple = false ->
  forallb guarded cs = true ->
  JsMap.size (_selectionMap (calls cs (new multiple trackByFn))) <= 1.
Proof.
  intros Hm Hg.
  apply (calls_singleInv cs (new multiple trackByFn) Hg).
  split; [exact Hm | cbn; lia].
Qed.

(** C2, as amended: every call to [select] and every call to [deselect]
    that returns (does not throw) emits exactly one Change Event, whose
    [before] is the snapshot of the map at call entry and whose [after] is
    the snapshot of the map the call leaves, whether or not the call
    changed anything. *)
Theorem C2_returning_call_emits_one_event (c0 : Call T) this :
  (invoke c0 this).1 = Normal tt ->
  changed (invoke c0 this).2 =
  changed this ++
    [ {| before := JsMap.values (_selectionMap this);
         after := JsMap.values (_selectionMap (invoke c0 this).2) |} ].
Proof.
  destruct c0 as [dev es|dev es]; cbn [invoke].
  - rewrite select_unfold. destruct (notMultiple dev this es);
      [discriminate|].
    set (this0 := if _multiple this then this else withMap JsMap.clear this).
    pose proof (select_loop_frame dev es [] this0) as (_ & _ & Hch).
    assert (Hch0 : changed this0 = changed this)
      by (subst this0; now destruct (_multiple this)).
    destruct (select_loop dev es [] this0) as [[ts|err] this'];
      [|discriminate].
    intros _. cbn in *. now rewrite Hch, Hch0.
  - rewrite deselect_unfold. destruct (notMultiple dev this es);
      [discriminate|].
    pose proof (deselect_loop_frame dev es [] this) as (_ & _ & Hch).
    destruct (deselect_loop dev es [] this) as [[ts|err] this'];
      [|discriminate].
    intros _. cbn in *. now rewrite Hch.
Qed.

(** C3: with [multiple = false], for two entries [a] and [b] whose derived
    keys differ, after [select(a)] then [select(b)], [isSelected(a)] is
    false, [isSelected(b)] is true and the map holds exactly one entry. *)
Theorem C3_single_mode_replacement dev this a b (ka kb : @Key T K) :
  _multiple this = false ->
  (_getTrackedByValue dev a this).1 = Normal ka ->
  (_getTrackedByValue dev b this).1 = Normal kb ->
  ka <> kb ->
  (isSelected dev a (select dev [b] (select dev [a] this).2).2).1
    = Normal false /\
  (isSelected dev b (select dev [b] (select dev [a] this).2).2).1
    = Normal true /\
  JsMap.size (_selectionMap (select dev [b] (select dev [a] this).2).2) = 1.
Proof.
  intros Hm Ha Hb Hne.
  apply derived_inv in Ha as [Hma ->]. apply derived_inv in Hb as [Hmb ->].
  rewrite (select_returns dev [a] this);
    [|now apply notMultiple_small | now repeat constructor].
  rewrite select_returns;
    [|now apply notMultiple_small | now repeat constructor].
  rewrite !isSelected_eq. cbn. rewrite Hm, Hma, Hmb. cbn.
  destruct (decide (keyOf (_trackByFn this) a = keyOf (_trackByFn this) b));
    [contradiction|].
  destruct (decide (keyOf (_trackByFn this) b = keyOf (_trackByFn this) b));
    [|contradiction].
  repeat split.
Qed.

(** C4: with [multiple = false] and more than one entry, [select] and
    [deselect] throw MultipleNotAllowed exactly when the diagnostic flag is
    on; with the flag off the call returns, having gone over all supplied
    entries: after [select] every supplied entry is selected, after
    [deselect] none is, and one event is emitted. *)
Theorem C4_not_multiple_only_in_dev_mode dev es this :
  _multiple this = false ->
  1 < length es ->
  ((select dev es this).1 = Throw MultipleNotAllowed <-> dev = true) /\
  ((deselect dev es this).1 = Throw MultipleNotAllowed <-> dev = true) /\
  (dev = false ->
     select dev es this =
       (Normal tt, returned this (selectAll (_trackByFn this) es [])) /\
     deselect dev es this =
       (Normal tt,
        returned this (deselectAll (_trackByFn this) es (_selectionMap this))) /\
     Forall (fun e => (isSelected dev e (select dev es this).2).1 = Normal true)
       es /\
     Forall (fun e => (isSelected dev e (deselect dev es this).2).1 = Normal false)
       es).
Proof.
  intros Hm Hlen. destruct dev.
  - rewrite select_notMultiple, deselect_notMultiple
      by now apply notMultiple_true_iff.
    repeat split; discriminate.
  - assert (Hg : notMultiple false this es = false).
    { unfold notMultiple. now rewrite andb_false_r. }
    assert (Hall : Forall
      (fun e => missingIndex false (_trackByFn this) e = false) es).
    { apply Forall_forall. intros e _. unfold missingIndex.
      destruct (_trackByFn this); [apply andb_false_r | reflexivity]. }
    rewrite select_returns, deselect_returns by assumption. rewrite Hm.
    split; [split; discriminate|]. split; [split; discriminate|].
    intros _. repeat split; apply Forall_forall; intros e Hin;
      rewrite isSelected_eq; cbn [returned _trackByFn _selectionMap fst snd];
      rewrite (proj1 (Forall_forall _ _) Hall e Hin); f_equal.
    + now apply selectAll_selects.
    + now apply deselectAll_deselects.
Qed.

(** C5: with a key function configured, deriving the key of an entry throws
    MissingIndex exactly when the entry's index is absent and the diagnostic
    flag is on, and with the flag off an absent index gives the key
    [trackByFn(undefined, value)]. [isSelected] throws under the same
    condition; [select] and [deselect], once past their entry check, throw
    MissingIndex exactly when the flag is on and some supplied entry has no
    index. *)
Theorem C5_missing_index_only_in_dev_mode dev (f : @TrackByFunction T K) this :
  _trackByFn this = Some f ->
  (forall e,
     ((_getTrackedByValue dev e this).1 = Throw MissingIndex <->
      index e = None /\ dev = true) /\
     (~ (index e = None /\ dev = true) ->
      (_getTrackedByValue dev e this).1 = Normal (inr (f (index e) (value e)))) /\
     (index e = None -> dev = false ->
      (_getTrackedByValue dev e this).1 = Normal (inr (f None (value e)))) /\
     ((isSelected dev e this).1 = Throw MissingIndex <->
      index e = None /\ dev = true)) /\
  (forall es,
     ((select dev es this).1 = Throw MissingIndex <->
      dev = true /\ (_multiple this = true \/ length es <= 1) /\
      Exists (fun e => index e = None) es) /\
     ((deselect dev es this).1 = Throw MissingIndex <->
      dev = true /\ (_multiple this = true \/ length es <= 1) /\
      Exists (fun e => index e = None) es)).
Proof.
  intros Htb. split.
  - intros e. rewrite getTrackedByValue_eq, isSelected_eq, Htb.
    destruct (missingIndex dev (Some f) e) eqn:He; cbn [fst keyOf].
    + apply missingIndex_true_iff in He as [Hi Hd].
      repeat split; auto; try tauto. intros _ Hd'. congruence.
    + assert (Hno : ~ (index e = None /\ dev = true)).
      { intros Hc. apply (missingIndex_true_iff dev f) in Hc. congruence. }
      repeat split; try discriminate; try tauto.
      intros Hi _. now rewrite Hi.
  - intros es.
    assert (Hentry : notMultiple dev this es = false <->
                     (_multiple this = true \/ length es <= 1 \/ dev = false)).
    { pose proof (notMultiple_true_iff dev this es) as Hiff.
      destruct (notMultiple dev this es).
      - split; [discriminate|]. intros Hc.
        destruct (proj1 Hiff eq_refl) as (Hm & Hl & Hd).
        destruct Hc as [Hc|[Hc|Hc]]; [congruence | lia | congruence].
      - split; [|reflexivity]. intros _.
        destruct (_multiple this); [now left|].
        destruct (Nat.le_gt_cases (length es) 1) as [Hl|Hl]; [auto|].
        destruct dev; [|auto].
        assert (false = true) by (apply Hiff; auto). discriminate. }
    destruct (notMultiple dev this es) eqn:Hg.
    + rewrite select_notMultiple, deselect_notMultiple by exact Hg.
      apply notMultiple_true_iff in Hg as (Hm & Hl & Hd).
      split; (split; [discriminate|]);
        intros (_ & [Hc|Hc] & _); [congruence | lia | congruence | lia].
    + assert (Hpass : dev = true ->
                      _multiple this = true \/ length es <= 1).
      { intros Hd. destruct (proj1 Hentry eq_refl) as [?|[?|?]];
          [auto | auto | congruence]. }
      destruct (derivable_dec dev (_trackByFn this) es) as [Hall|Hex].
      * rewrite select_returns, deselect_returns by assumption.
        apply Forall_not_Exists_missingIndex in Hall.
        rewrite Htb, Exists_missingIndex in Hall.
        split; (split; [discriminate|]); intros (Hd & _ & Hex); tauto.
      * destruct (select_missing dev es this Hg Hex) as [-> _].
        destruct (deselect_missing dev es this Hg Hex) as [-> _].
        rewrite Htb in Hex. apply Exists_missingIndex in Hex as [Hd Hex].
        split; (split; [|reflexivity]); intros _; auto.
Qed.

(** C6, as amended: for every entry [a], [select(a)] twice leaves the map
    as [select(a)] once leaves it (same entries, same order); and when
    [select(a)] returns (the key of [a] can be derived), the second call
    returns too and emits one more Change Event, whose [before] and
    [after] are both the snapshot left by the first call. *)
Theorem C6_reselect_is_idempotent dev a this :
  _selectionMap (select dev [a] (select dev [a] this).2).2 =
    _selectionMap (select dev [a] this).2 /\
  ((select dev [a] this).1 = Normal tt ->
   (select dev [a] (select dev [a] this).2).1 = Normal tt /\
   changed (select dev [a] (select dev [a] this).2).2 =
     changed (select dev [a] this).2 ++
     [ {| before := JsMap.values (_selectionMap (select dev [a] this).2);
          after := JsMap.values (_selectionMap (select dev [a] this).2) |} ]).
Proof.
  destruct (missingIndex dev (_trackByFn this) a) eqn:Ha.
  - rewrite (select_unfold dev [a] this), notMultiple_small by (cbn; lia).
    rewrite select_loop_cons_throw by (now destruct (_multiple this)).
    split; [|discriminate]. cbn [snd].
    rewrite select_unfold, notMultiple_small by (cbn; lia).
    rewrite select_loop_cons_throw
      by (now destruct (_multiple this) eqn:Hm; cbn; rewrite ?Hm).
    cbn [snd]. destruct (_multiple this) eqn:Hm; cbn; rewrite ?Hm; reflexivity.
  - rewrite (select_returns dev [a] this);
      [|now apply notMultiple_small | now repeat constructor].
    cbn [fst snd]. rewrite select_returns;
      [|now apply notMultiple_small | now repeat constructor].
    cbn [fst snd returned _selectionMap _multiple _trackByFn selectAll].
    set (k := keyOf (_trackByFn this) a).
    assert (Hsame :
      (let m1 := if JsMap.has k (if _multiple this then _selectionMap this else [])
                 then (if _multiple this then _selectionMap this else [])
                 else JsMap.set k a
                        (if _multiple this then _selectionMap this else []) in
       (if JsMap.has k (if _multiple this then m1 else [])
        then (if _multiple this then m1 else [])
        else JsMap.set k a (if _multiple this then m1 else [])) = m1)).
    { destruct (_multiple this); cbn zeta.
      - destruct (JsMap.has k (_selectionMap this)) eqn:Hk.
        + now rewrite Hk.
        + assert (Hin : JsMap.has k (JsMap.set k a (_selectionMap this)) = true)
            by (rewrite has_set; now destruct (decide (k = k))).
          now rewrite Hin.
      - reflexivity. }
    cbn zeta in Hsame. rewrite Hsame. repeat split.
Qed.

(** C7: in multi mode, on a new set, selecting [a], then [b], then [c]
    (keys pairwise distinct) yields the snapshot [a; b; c], whether in
    three calls or in one, and deselecting [b] then yields [a; c]. In
    general a newly selected entry goes to the end of the snapshot, and
    deselecting removes the entry with that key and keeps the others in
    their order. *)
Theorem C7_order_preservation dev (trackByFn : option (@TrackByFunction T K))
    a b c (ka kb kc : @Key T K) :
  (_getTrackedByValue dev a (new (Some true) trackByFn)).1 = Normal ka ->
  (_getTrackedByValue dev b (new (Some true) trackByFn)).1 = Normal kb ->
  (_getTrackedByValue dev c (new (Some true) trackByFn)).1 = Normal kc ->
  ka <> kb -> ka <> kc -> kb <> kc ->
  changed (calls [CallSelect dev [a]; CallSelect dev [b]; CallSelect dev [c]]
             (new (Some true) trackByFn)) =
    [ {| before := []; after := [a] |};
      {| before := [a]; after := [a; b] |};
      {| before := [a; b]; after := [a; b; c] |} ] /\
  changed (calls [CallSelect dev [a; b; c]] (new (Some true) trackByFn)) =
    [ {| before := []; after := [a; b; c] |} ] /\
  changed (calls [CallSelect dev [a]; CallSelect dev [b]; CallSelect dev [c];
                  CallDeselect dev [b]]
             (new (Some true) trackByFn)) =
    [ {| before := []; after := [a] |};
      {| before := [a]; after := [a; b] |};
      {| before := [a; b]; after := [a; b; c] |};
      {| before := [a; b; c]; after := [a; c] |} ] /\
  (forall this x k,
     _multiple this = true ->
     (_getTrackedByValue dev x this).1 = Normal k ->
     JsMap.has k (_selectionMap this) = false ->
     JsMap.values (_selectionMap (select dev [x] this).2) =
       JsMap.values (_selectionMap this) ++ [x]) /\
  (forall this x k,
     (_getTrackedByValue dev x this).1 = Normal k ->
     JsMap.values (_selectionMap (deselect dev [x] this).2) =
       JsMap.values (filter (fun p => p.1 <> k) (_selectionMap this))).
Proof.
  intros Ha Hb Hc Hab Hac Hbc.
  apply derived_inv in Ha as [Hma ->]. apply derived_inv in Hb as [Hmb ->].
  apply derived_inv in Hc as [Hmc ->]. cbn [new _trackByFn] in *.
  assert (Hba : keyOf trackByFn b <> keyOf trackByFn a) by congruence.
  assert (Hca : keyOf trackByFn c <> keyOf trackByFn a) by congruence.
  assert (Hcb : keyOf trackByFn c <> keyOf trackByFn b) by congruence.
  assert (Hthree :
    calls [CallSelect dev [a]; CallSelect dev [b]; CallSelect dev [c]]
      (new (Some true) trackByFn) =
    {| _multiple := true; _trackByFn := trackByFn;
       _selectionMap := [(keyOf trackByFn a, a); (keyOf trackByFn b, b);
                         (keyOf trackByFn c, c)];
       changed := [ {| before := []; after := [a] |};
                    {| before := [a]; after := [a; b] |};
                    {| before := [a; b]; after := [a; b; c] |} ] |}).
  { unfold calls, call. cbn [fold_left invoke].
    rewrite (select_returns dev [a] (new (Some true) trackByFn));
      [|reflexivity | now repeat constructor].
    cbn [snd]. rewrite (select_returns dev [b]);
      [|reflexivity | now repeat constructor].
    cbn [snd]. rewrite (select_returns dev [c]);
      [|reflexivity | now repeat constructor].
    cbn.
    repeat (first [ rewrite decide_True by reflexivity
                  | rewrite decide_False by assumption ]; cbn).
    reflexivity. }
  split; [now rewrite Hthree|]. split; [|split; [|split]].
  - unfold calls, call. cbn [fold_left invoke].
    rewrite (select_returns dev [a; b; c]);
      [|reflexivity | now repeat constructor].
    cbn.
    repeat (first [ rewrite decide_True by reflexivity
                  | rewrite decide_False by assumption ]; cbn).
    reflexivity.
  - change [CallSelect dev [a]; CallSelect dev [b]; CallSelect dev [c];
            CallDeselect dev [b]]
      with ([CallSelect dev [a]; CallSelect dev [b]; CallSelect dev [c]]
            ++ [CallDeselect dev [b]]).
    unfold calls in *. rewrite fold_left_app, Hthree.
    unfold call. cbn [fold_left invoke].
    rewrite (deselect_returns dev [b]);
      [|reflexivity | now repeat constructor].
    cbn.
    repeat (first [ rewrite decide_True by reflexivity
                  | rewrite decide_False by assumption ]; cbn).
    reflexivity.
  - intros this x k Hm Hx Hk. apply derived_inv in Hx as [Hmx ->].
    rewrite select_returns;
      [|now apply notMultiple_small | now repeat constructor].
    cbn. rewrite Hm, Hk, set_absent by exact Hk.
    unfold JsMap.values. now rewrite fmap_app.
  - intros this x k Hx. apply derived_inv in Hx as [Hmx ->].
    rewrite deselect_returns;
      [|now apply notMultiple_small | now repeat constructor].
    cbn [snd returned _selectionMap deselectAll]. rewrite <- delete_filter.
    destruct (JsMap.has _ _) eqn:Hk; [reflexivity|].
    now rewrite delete_absent.
Qed.

(** C8: for an entry [x] whose derived key is not in the map,
    [deselect(x)] returns, leaves the map as it is and emits one Change
    Event whose [before] and [after] are both the snapshot of that map. *)
Theorem C8_deselect_absent_is_noop dev x (k : @Key T K) this :
  (_getTrackedByValue dev x this).1 = Normal k ->
  JsMap.has k (_selectionMap this) = false ->
  (deselect dev [x] this).1 = Normal tt /\
  _selectionMap (deselect dev [x] this).2 = _selectionMap this /\
  changed (deselect dev [x] this).2 =
    changed this ++
    [ {| before := JsMap.values (_selectionMap this);
         after := JsMap.values (_selectionMap this) |} ].
Proof.
  intros Hx Hk. apply derived_inv in Hx as [Hmx ->].
  rewrite deselect_returns;
    [|now apply notMultiple_small | now repeat constructor].
  cbn. rewrite Hk. repeat split.
Qed.

(** C9: with the diagnostic flag on, [multiple = false] and more than one
    entry, [select] and [deselect] throw MultipleNotAllowed and leave the
    object as it was: same map, no event. *)
Theorem C9_not_multiple_throws_before_any_effect es this :
  _multiple this = false ->
  1 < length es ->
  select true es this = (Throw MultipleNotAllowed, this) /\
  deselect true es this = (Throw MultipleNotAllowed, this).
Proof.
  intros Hm Hlen.
  rewrite select_notMultiple, deselect_notMultiple
    by now apply notMultiple_true_iff.
  now split.
Qed.

(** C10: [select()] with no entry returns and emits one event; with
    [multiple = false] it empties the map, [before] being the previous
    snapshot and [after] empty; with [multiple = true] it leaves the map as
    it is, [before] and [after] both being its snapshot. *)
Theorem C10_select_nothing dev this :
  (select dev [] this).1 = Normal tt /\
  (_multiple this = false ->
   _selectionMap (select dev [] this).2 = [] /\
   changed (select dev [] this).2 =
     changed this ++
     [ {| before := JsMap.values (_selectionMap this); after := [] |} ]) /\
  (_multiple this = true ->
   _selectionMap (select dev [] this).2 = _selectionMap this /\
   changed (select dev [] this).2 =
     changed this ++
     [ {| before := JsMap.values (_selectionMap this);
          after := JsMap.values (_selectionMap this) |} ]).
Proof.
  rewrite select_returns;
    [|apply notMultiple_small; cbn; lia | constructor].
  cbn. split; [reflexivity|].
  split; intros Hm; rewrite Hm; split; reflexivity.
Qed.
End Claims.

(** C1 as stated fails: with the diagnostic flag off, [select(a, b)] on a
    single-mode set leaves two entries in the map. *)
Lemma C1_counterexample :
  ~ JsMap.size (_selectionMap
      (calls [CallSelect false [Sample.a; Sample.b]] Sample.single)) <= 1.
Proof. vm_compute. lia. Qed.

Lemma C1_witness :
  JsMap.size (_selectionMap
    (calls [CallSelect true [Sample.a]; CallSelect true [Sample.a; Sample.b];
            CallDeselect false [Sample.c; Sample.a]; CallSelect false [Sample.b];
            CallSelect true [Sample.noIndex]]
       (new None (Some Sample.byResidue)))) <= 1.
Proof.
  apply (C1_single_mode_at_most_one_entry None (Some Sample.byResidue));
    reflexivity.
Defined.

(** C2 as stated fails: in diagnostic mode [select(a, b)] on a single-mode
    set throws and emits nothing. *)
Lemma C2_counterexample :
  (select true [Sample.a; Sample.b] Sample.single).1 = Throw MultipleNotAllowed /\
  ~ exists ev,
      changed (select true [Sample.a; Sample.b] Sample.single).2 =
      changed Sample.single ++ [ev].
Proof.
  split; [reflexivity|]. intros [ev Hev]. vm_compute in Hev. discriminate Hev.
Qed.

Lemma C2_witness :
  changed (invoke (CallSelect true [Sample.a])
             (call (CallSelect true [Sample.a]) Sample.single)).2 =
  [ {| before := []; after := [Sample.a] |};
    {| before := [Sample.a]; after := [Sample.a] |} ].
Proof.
  apply (C2_returning_call_emits_one_event (CallSelect true [Sample.a])
           (call (CallSelect true [Sample.a]) Sample.single)).
  reflexivity.
Defined.

Lemma C3_witness :
  (isSelected true Sample.a
     (select true [Sample.b] (select true [Sample.a] Sample.singleTracked).2).2).1
    = Normal false /\
  (isSelected true Sample.b
     (select true [Sample.b] (select true [Sample.a] Sample.singleTracked).2).2).1
    = Normal true /\
  JsMap.size (_selectionMap
    (select true [Sample.b] (select true [Sample.a] Sample.singleTracked).2).2) = 1.
Proof.
  apply (C3_single_mode_replacement true Sample.singleTracked Sample.a Sample.b
           (inr 1%Z) (inr 2%Z));
    [reflexivity | reflexivity | reflexivity | discriminate].
Defined.

Lemma C4_witness :
  ((select false [Sample.a; Sample.b] Sample.single).1 = Throw MultipleNotAllowed
   <-> false = true) /\
  select false [Sample.a; Sample.b] Sample.single =
    (Normal tt,
     returned Sample.single (selectAll None [Sample.a; Sample.b] [])).
Proof.
  destruct (C4_not_multiple_only_in_dev_mode false [Sample.a; Sample.b]
              Sample.single) as (Hsel & _ & Hoff);
    [reflexivity | cbn; lia |].
  split; [exact Hsel | apply Hoff; reflexivity].
Defined.

Lemma C5_witness :
  ((_getTrackedByValue true Sample.noIndex Sample.singleTracked).1
     = Throw MissingIndex <-> index Sample.noIndex = None /\ true = true) /\
  ((select true [Sample.a; Sample.noIndex] Sample.multiTracked).1
     = Throw MissingIndex <->
   true = true /\
   (_multiple Sample.multiTracked = true \/
    length [Sample.a; Sample.noIndex] <= 1) /\
   Exists (fun e => index e = None) [Sample.a; Sample.noIndex]).
Proof.
  split.
  - apply (C5_missing_index_only_in_dev_mode true Sample.byResidue
             Sample.singleTracked eq_refl).
  - apply (C5_missing_index_only_in_dev_mode true Sample.byResidue
             Sample.multiTracked eq_refl).
Defined.

(** C6 as stated fails: in diagnostic mode, with a key function and an entry
    without index, the second [select] throws and emits nothing. *)
Lemma C6_counterexample :
  (select true [Sample.noIndex]
     (select true [Sample.noIndex] Sample.singleTracked).2).1
    = Throw MissingIndex /\
  ~ exists ev,
      changed (select true [Sample.noIndex]
                 (select true [Sample.noIndex] Sample.singleTracked).2).2 =
      changed (select true [Sample.noIndex] Sample.singleTracked).2 ++ [ev].
Proof.
  split; [reflexivity|]. intros [ev Hev]. vm_compute in Hev. discriminate Hev.
Qed.

Lemma C6_witness :
  _selectionMap (select true [Sample.a] (select true [Sample.a] Sample.multi).2).2
    = [(inl 1%Z, Sample.a)] /\
  changed (select true [Sample.a] (select true [Sample.a] Sample.multi).2).2 =
    [ {| before := []; after := [Sample.a] |};
      {| before := [Sample.a]; after := [Sample.a] |} ].
Proof.
  destruct (C6_reselect_is_idempotent true Sample.a Sample.multi) as [Hmap Hev].
  split; [exact Hmap | apply Hev; reflexivity].
Defined.

Lemma C7_witness :
  changed (calls [CallSelect true [Sample.a]; CallSelect true [Sample.b];
                  CallSelect true [Sample.c]; CallDeselect true [Sample.b]]
             Sample.multiTracked) =
    [ {| before := []; after := [Sample.a] |};
      {| before := [Sample.a]; after := [Sample.a; Sample.b] |};
      {| before := [Sample.a; Sample.b];
         after := [Sample.a; Sample.b; Sample.c] |};
      {| before := [Sample.a; Sample.b; Sample.c];
         after := [Sample.a; Sample.c] |} ].
Proof.
  apply (C7_order_preservation true (Some Sample.byResidue)
           Sample.a Sample.b Sample.c (inr 1%Z) (inr 2%Z) (inr 3%Z));
    [reflexivity | reflexivity | reflexivity
    | discriminate | discriminate | discriminate].
Defined.

Lemma C8_witness :
  (deselect true [Sample.b] (select true [Sample.a] Sample.multi).2).1
    = Normal tt /\
  _selectionMap (deselect true [Sample.b] (select true [Sample.a] Sample.multi).2).2
    = _selectionMap (select true [Sample.a] Sample.multi).2 /\
  changed (deselect true [Sample.b] (select true [Sample.a] Sample.multi).2).2 =
    changed (select true [Sample.a] Sample.multi).2 ++
    [ {| before := [Sample.a]; after := [Sample.a] |} ].
Proof.
  apply (C8_deselect_absent_is_noop true Sample.b (inl 2%Z)
           (select true [Sample.a] Sample.multi).2);
    reflexivity.
Defined.

Lemma C9_witness :
  select true [Sample.a; Sample.b]
    (select true [Sample.c] Sample.single).2 =
    (Throw MultipleNotAllowed, (select true [Sample.c] Sample.single).2) /\
  deselect true [Sample.a; Sample.b]
    (select true [Sample.c] Sample.single).2 =
    (Throw MultipleNotAllowed, (select true [Sample.c] Sample.single).2).
Proof.
  apply (C9_not_multiple_throws_before_any_effect [Sample.a; Sample.b]
           (select true [Sample.c] Sample.single).2).
  - reflexivity.
  - cbn. lia.
Defined.

Lemma C10_witness :
  _selectionMap (select true [] (select true [Sample.a] Sample.single).2).2 = [] /\
  changed (select true [] (select true [Sample.a] Sample.single).2).2 =
    [ {| before := []; after := [Sample.a] |};
      {| before := [Sample.a]; after := [] |} ].
Proof.
  destruct (C10_select_nothing true (select true [Sample.a] Sample.single).2)
    as (_ & Hsingle & _).
  apply Hsingle. reflexivity.
Defined.

(** ** Further facts about the loops *)

Section LoopFacts.
Context {T K : Type} `{EqDecision T, EqDecision K}.
Implicit Types (tb : option (@TrackByFunction T K))
  (this : SelectionSet T K) (e : SelectableWithIndex T)
  (es acc : list (SelectableWithIndex T))
  (m : list (@Key T K * SelectableWithIndex T)) (k : @Key T K).

(** A call returns only past the entry check and with every key derived. *)
Lemma select_Normal_inv dev es this :
  (select dev es this).1 = Normal tt ->
  notMultiple dev this es = false /\
  Forall (fun e => missingIndex dev (_trackByFn this) e = false) es.
Proof.
  intros Hret. destruct (notMultiple dev this es) eqn:Hg.
  - rewrite select_notMultiple in Hret by exact Hg. discriminate.
  - split; [reflexivity|].
    destruct (derivable_dec dev (_trackByFn this) es) as [Hall|Hex];
      [exact Hall|].
    destruct (select_missing dev es this Hg Hex) as [Hthrow _]. congruence.
Qed.

Lemma deselect_Normal_inv dev es this :
  (deselect dev es this).1 = Normal tt ->
  notMultiple dev this es = false /\
  Forall (fun e => missingIndex dev (_trackByFn this) e = false) es.
Proof.
  intros Hret. destruct (notMultiple dev this es) eqn:Hg.
  - rewrite deselect_notMultiple in Hret by exact Hg. discriminate.
  - split; [reflexivity|].
    destruct (derivable_dec dev (_trackByFn this) es) as [Hall|Hex];
      [exact Hall|].
    destruct (deselect_missing dev es this Hg Hex) as [Hthrow _]. congruence.
Qed.

(** The turn of the [deselect] loop is a plain [delete]. *)
Lemma deselect_turn k m :
  (if JsMap.has k m then JsMap.delete k m else m) = JsMap.delete k m.
Proof.
  destruct (JsMap.has k m) eqn:Hk; [reflexivity|].
  symmetry. now apply delete_absent.
Qed.

Lemma deselectAll_filter tb es : forall m,
  deselectAll tb es m = filter (fun p => p.1 ∉ (keyOf tb <$> es)) m.
Proof.
  induction es as [|e es IH]; intros m; cbn [deselectAll].
  - symmetry. induction m as [|p m IHm]; [reflexivity|].
    rewrite filter_cons_True; [now rewrite IHm | cbn; apply not_elem_of_nil].
  - rewrite deselect_turn, IH, delete_filter, list_filter_filter.
    apply list_filter_iff. intros p. rewrite fmap_cons, not_elem_of_cons.
    tauto.
Qed.

Lemma has_selectAll tb es : forall m k,
  JsMap.has k (selectAll tb es m) =
  if decide (k ∈ (keyOf tb <$> es)) then true else JsMap.has k m.
Proof.
  induction es as [|e es IH]; intros m k; cbn [selectAll].
  - rewrite decide_False; [reflexivity | cbn; apply not_elem_of_nil].
  - rewrite IH, fmap_cons.
    destruct (decide (k ∈ (keyOf tb <$> es))) as [Hin|Hnin].
    + rewrite decide_True; [reflexivity | now apply list_elem_of_further].
    + destruct (decide (k = keyOf tb e)) as [->|Hne].
      * rewrite decide_True by apply list_elem_of_here.
        destruct (JsMap.has (keyOf tb e) m) eqn:Hh; [exact Hh|].
        rewrite has_set. now rewrite decide_True.
      * rewrite decide_False
          by (rewrite elem_of_cons; intros [?|?]; contradiction).
        destruct (JsMap.has (keyOf tb e) m); [reflexivity|].
        rewrite has_set. now rewrite decide_False.
Qed.

Lemma has_deselectAll tb es : forall m k,
  JsMap.has k (deselectAll tb es m) =
  if decide (k ∈ (keyOf tb <$> es)) then false else JsMap.has k m.
Proof.
  induction es as [|e es IH]; intros m k; cbn [deselectAll].
  - rewrite decide_False; [reflexivity | cbn; apply not_elem_of_nil].
  - rewrite deselect_turn, IH, fmap_cons, has_delete.
    destruct (decide (k ∈ (keyOf tb <$> es))) as [Hin|Hnin].
    + rewrite decide_True; [reflexivity | now apply list_elem_of_further].
    + destruct (decide (k = keyOf tb e)) as [->|Hne].
      * now rewrite decide_True by apply list_elem_of_here.
      * now rewrite decide_False
          by (rewrite elem_of_cons; intros [?|?]; contradiction).
Qed.

(** However it ends, the [select] loop only adds entries at the end of the
    map, each a supplied entry under its derived key. *)
Lemma select_loop_appends dev es : forall acc this,
  exists added,
    _selectionMap (select_loop dev es acc this).2 = _selectionMap this ++ added /\
    length added <= length es /\
    Forall (fun p => p.2 ∈ es /\ p.1 = keyOf (_trackByFn this) p.2) added.
Proof.
  induction es as [|e es IH]; intros acc this.
  - exists []. cbn. rewrite app_nil_r. repeat split; [lia | constructor].
  - destruct (missingIndex dev (_trackByFn this) e) eqn:He.
    + rewrite select_loop_cons_throw by exact He. exists []. cbn.
      rewrite app_nil_r. repeat split; [lia | constructor].
    + rewrite select_loop_cons by exact He.
      destruct (JsMap.has _ _) eqn:Hk.
      * destruct (IH acc this) as (added & Hmap & Hlen & Hall).
        exists added. split; [exact Hmap|]. split; [cbn; lia|].
        eapply Forall_impl; [exact Hall|]. intros p [Hin Hp].
        split; [now apply list_elem_of_further | exact Hp].
      * destruct (IH (acc ++ [e])
          (withMap (JsMap.set (keyOf (_trackByFn this) e) e) this))
          as (added & Hmap & Hlen & Hall).
        exists ((keyOf (_trackByFn this) e, e) :: added).
        rewrite Hmap. cbn [withMap _selectionMap _trackByFn] in *.
        rewrite set_absent by exact Hk. rewrite <- app_assoc.
        split; [reflexivity|]. split; [cbn; lia|].
        constructor; [split; [apply list_elem_of_here | reflexivity]|].
        eapply Forall_impl; [exact Hall|]. intros p [Hin Hp].
        split; [now apply list_elem_of_further | exact Hp].
Qed.
End LoopFacts.

Section LoopFacts2.
Context {T K : Type} `{EqDecision T, EqDecision K}.
Implicit Types (tb : option (@TrackByFunction T K))
  (this : SelectionSet T K) (e : SelectableWithIndex T)
  (es acc : list (SelectableWithIndex T))
  (m : list (@Key T K * SelectableWithIndex T)) (k : @Key T K).

(** The keys of the supplied entries, read through [_getTrackedByValue]. *)
Lemma supplied_key_iff dev es this k :
  Forall (fun e => missingIndex dev (_trackByFn this) e = false) es ->
  k ∈ (keyOf (_trackByFn this) <$> es) <->
  exists e, e ∈ es /\ (_getTrackedByValue dev e this).1 = Normal k.
Proof.
  intros Hall. rewrite list_elem_of_fmap. rewrite Forall_forall in Hall.
  split; intros (e & H1 & H2).
  - exists e. split; [exact H2|].
    rewrite getTrackedByValue_eq, (Hall e H2). cbn. now subst k.
  - exists e. split; [|exact H1].
    rewrite getTrackedByValue_eq, (Hall e H1) in H2. cbn in H2. congruence.
Qed.

Lemma not_missing_iff dev e this :
  (_getTrackedByValue dev e this).1 <> Throw MissingIndex <->
  missingIndex dev (_trackByFn this) e = false.
Proof.
  rewrite getTrackedByValue_eq.
  destruct (missingIndex dev (_trackByFn this) e); cbn; split;
    congruence.
Qed.

Lemma missing_iff dev e this :
  (_getTrackedByValue dev e this).1 = Throw MissingIndex <->
  missingIndex dev (_trackByFn this) e = true.
Proof.
  rewrite getTrackedByValue_eq.
  destruct (missingIndex dev (_trackByFn this) e); cbn; split;
    congruence.
Qed.

(** A loop that meets an underivable key has done the turns before it. *)
Lemma select_loop_midway dev es1 e es2 : forall acc this,
  Forall (fun e' => missingIndex dev (_trackByFn this) e' = false) es1 ->
  missingIndex dev (_trackByFn this) e = true ->
  select_loop dev (es1 ++ e :: es2) acc this =
  (Throw MissingIndex,
   withMap (fun _ => selectAll (_trackByFn this) es1 (_selectionMap this)) this).
Proof.
  induction es1 as [|e1 es1 IH]; intros acc this Hall He.
  - cbn [app]. rewrite select_loop_cons_throw by exact He.
    destruct this; reflexivity.
  - apply Forall_cons in Hall as [H1 Hall]. cbn [app].
    rewrite select_loop_cons by exact H1. cbn [selectAll].
    destruct (JsMap.has _ _); [now apply IH|].
    rewrite IH; [reflexivity | exact Hall | exact He].
Qed.

Lemma deselect_loop_midway dev es1 e es2 : forall acc this,
  Forall (fun e' => missingIndex dev (_trackByFn this) e' = false) es1 ->
  missingIndex dev (_trackByFn this) e = true ->
  deselect_loop dev (es1 ++ e :: es2) acc this =
  (Throw MissingIndex,
   withMap (fun _ => deselectAll (_trackByFn this) es1 (_selectionMap this))
     this).
Proof.
  induction es1 as [|e1 es1 IH]; intros acc this Hall He.
  - cbn [app]. rewrite deselect_loop_cons_throw by exact He.
    destruct this; reflexivity.
  - apply Forall_cons in Hall as [H1 Hall]. cbn [app].
    rewrite deselect_loop_cons by exact H1. cbn [deselectAll].
    destruct (JsMap.has _ _); [|now apply IH].
    rewrite IH; [reflexivity | exact Hall | exact He].
Qed.

(** Entries that are all selected (all absent) make the loop a no-op. *)
Lemma selectAll_present tb es m :
  Forall (fun e => JsMap.has (keyOf tb e) m = true) es -> selectAll tb es m = m.
Proof.
  induction 1 as [|e es He _ IH]; [reflexivity|].
  cbn [selectAll]. now rewrite He.
Qed.

Lemma deselectAll_absent tb es m :
  Forall (fun e => JsMap.has (keyOf tb e) m = false) es ->
  deselectAll tb es m = m.
Proof.
  induction 1 as [|e es He _ IH]; [reflexivity|].
  cbn [deselectAll]. now rewrite He.
Qed.

Lemma size_delete_present k m :
  NoDup (JsMap.keys m) -> JsMap.has k m = true ->
  JsMap.size m = S (JsMap.size (JsMap.delete k m)).
Proof.
  unfold JsMap.size, JsMap.keys.
  induction m as [|[k' v'] m IH]; intros Hnd Hk; [discriminate|].
  rewrite fmap_cons in Hnd. apply NoDup_cons in Hnd as [Hnin Hnd].
  cbn [JsMap.has JsMap.delete] in *. destruct (decide (k = k')) as [->|Hne].
  - rewrite delete_absent; [reflexivity|]. now apply has_false.
  - cbn [length]. now rewrite (IH Hnd Hk).
Qed.

(** One call: it returns with one event, or throws with none. *)
Lemma call_event (c : Call T) this :
  ((invoke c this).1 = Normal tt /\
   changed (call c this) =
     changed this ++
     [ {| before := JsMap.values (_selectionMap this);
          after := JsMap.values (_selectionMap (call c this)) |} ]) \/
  ((exists err, (invoke c this).1 = Throw err) /\
   changed (call c this) = changed this).
Proof.
  unfold call. destruct c as [dev es|dev es]; cbn [invoke].
  - rewrite select_unfold. destruct (notMultiple dev this es);
      [right; split; [now exists MultipleNotAllowed | reflexivity]|].
    set (this0 := if _multiple this then this else withMap JsMap.clear this).
    pose proof (select_loop_frame dev es [] this0) as (_ & _ & Hch).
    assert (Hch0 : changed this0 = changed this)
      by (subst this0; now destruct (_multiple this)).
    destruct (select_loop dev es [] this0) as [[ts|err] this']; cbn in *.
    + left. split; [reflexivity|]. now rewrite Hch, Hch0.
    + right. split; [now exists err | congruence].
  - rewrite deselect_unfold. destruct (notMultiple dev this es);
      [right; split; [now exists MultipleNotAllowed | reflexivity]|].
    pose proof (deselect_loop_frame dev es [] this) as (_ & _ & Hch).
    destruct (deselect_loop dev es [] this) as [[ts|err] this']; cbn in *.
    + left. split; [reflexivity|]. now rewrite Hch.
    + right. split; [now exists err | congruence].
Qed.

Lemma call_config (c : Call T) this :
  _multiple (call c this) = _multiple this /\
  _trackByFn (call c this) = _trackByFn this.
Proof.
  unfold call. destruct c as [dev es|dev es]; cbn [invoke].
  - apply select_config.
  - apply deselect_config.
Qed.

(** Every stored entry stays under its own derived key. *)
Lemma Forall_set (P : @Key T K * SelectableWithIndex T -> Prop) k v m :
  P (k, v) -> Forall P m -> Forall P (JsMap.set k v m).
Proof.
  intros Hkv. induction 1 as [|[k' v'] m Hp Hm IH]; cbn.
  - now repeat constructor.
  - destruct (decide (k = k')); constructor; assumption.
Qed.

Lemma Forall_map_delete (P : @Key T K * SelectableWithIndex T -> Prop) k m :
  Forall P m -> Forall P (JsMap.delete k m).
Proof.
  induction 1 as [|[k' v'] m Hp _ IH]; cbn; [constructor|].
  destruct (decide (k = k')); [assumption | now constructor].
Qed.

Lemma select_loop_keyed dev es : forall acc this,
  Forall (fun p => p.1 = keyOf (_trackByFn this) p.2) (_selectionMap this) ->
  Forall (fun p => p.1 = keyOf (_trackByFn this) p.2)
    (_selectionMap (select_loop dev es acc this).2).
Proof.
  induction es as [|e es IH]; intros acc this Hall; [exact Hall|].
  destruct (missingIndex dev (_trackByFn this) e) eqn:He.
  - now rewrite select_loop_cons_throw.
  - rewrite select_loop_cons by exact He.
    destruct (JsMap.has _ _); [now apply IH|].
    apply (IH (acc ++ [e])
      (withMap (JsMap.set (keyOf (_trackByFn this) e) e) this)).
    cbn. now apply Forall_set.
Qed.

Lemma deselect_loop_keyed dev es : forall acc this,
  Forall (fun p => p.1 = keyOf (_trackByFn this) p.2) (_selectionMap this) ->
  Forall (fun p => p.1 = keyOf (_trackByFn this) p.2)
    (_selectionMap (deselect_loop dev es acc this).2).
Proof.
  induction es as [|e es IH]; intros acc this Hall; [exact Hall|].
  destruct (missingIndex dev (_trackByFn this) e) eqn:He.
  - now rewrite deselect_loop_cons_throw.
  - rewrite deselect_loop_cons by exact He.
    destruct (JsMap.has _ _); [|now apply IH].
    apply (IH (acc ++ [e])
      (withMap (JsMap.delete (keyOf (_trackByFn this) e)) this)).
    cbn. now apply Forall_map_delete.
Qed.

Lemma call_consistent (c : Call T) this :
  consistent (_trackByFn this) (_selectionMap this) ->
  consistent (_trackByFn this) (_selectionMap (call c this)).
Proof.
  intros [Hnd Hkeyed]. split; [now apply call_NoDup|].
  unfold call. destruct c as [dev es|dev es]; cbn [invoke].
  - rewrite select_unfold. destruct (notMultiple dev this es); [exact Hkeyed|].
    set (this0 := if _multiple this then this else withMap JsMap.clear this).
    assert (Htb : _trackByFn this0 = _trackByFn this)
      by (subst this0; now destruct (_multiple this)).
    assert (H0 : Forall (fun p => p.1 = keyOf (_trackByFn this0) p.2)
                   (_selectionMap this0)).
    { subst this0. destruct (_multiple this); [exact Hkeyed | constructor]. }
    pose proof (select_loop_keyed dev es [] this0 H0) as Hloop.
    rewrite Htb in Hloop.
    destruct (select_loop dev es [] this0) as [[ts|err] this']; exact Hloop.
  - rewrite deselect_unfold. destruct (notMultiple dev this es); [exact Hkeyed|].
    pose proof (deselect_loop_keyed dev es [] this Hkeyed) as Hloop.
    destruct (deselect_loop dev es [] this) as [[ts|err] this']; exact Hloop.
Qed.

Lemma calls_consistent (cs : list (Call T)) : forall this,
  consistent (_trackByFn this) (_selectionMap this) ->
  consistent (_trackByFn this) (_selectionMap (calls cs this)) /\
  _trackByFn (calls cs this) = _trackByFn this.
Proof.
  induction cs as [|c cs IH]; intros this Hc; [now split|].
  change (calls (c :: cs) this) with (calls cs (call c this)).
  destruct (call_config c this) as [_ Htb].
  destruct (IH (call c this)) as [H1 H2].
  { rewrite Htb. now apply call_consistent. }
  rewrite Htb in H1, H2. now split.
Qed.

(** In a consistent map, [has] is membership of the key among the derived
    keys of the stored entries. *)
Lemma has_consistent tb m k :
  consistent tb m ->
  JsMap.has k m = true <-> exists e, e ∈ JsMap.values m /\ keyOf tb e = k.
Proof.
  intros [_ Hkeyed]. rewrite has_true. unfold JsMap.keys, JsMap.values.
  rewrite Forall_forall in Hkeyed. rewrite list_elem_of_fmap. split.
  - intros ([k' v] & -> & Hin). exists v. split.
    + apply list_elem_of_fmap. now exists (k', v).
    + symmetry. exact (Hkeyed _ Hin).
  - intros (e & Hin & <-). apply list_elem_of_fmap in Hin as ([k' v] & -> & Hin).
    exists (k', v). split; [|exact Hin]. symmetry. exact (Hkeyed _ Hin).
Qed.
Lemma delete_snoc_absent k (v : SelectableWithIndex T) m :
  JsMap.has k m = false -> JsMap.delete k (m ++ [(k, v)]) = m.
Proof.
  induction m as [|[k' v'] m IH]; cbn.
  - intros _. now rewrite decide_True.
  - destruct (decide (k = k')); [discriminate|]. intros Hk. now rewrite IH.
Qed.

Lemma keys_of_keyed tb m :
  Forall (fun p => p.1 = keyOf tb p.2) m ->
  JsMap.keys m = keyOf tb <$> JsMap.values m.
Proof.
  unfold JsMap.keys, JsMap.values.
  induction 1 as [|[k' v'] m Hp _ IH]; [reflexivity|].
  rewrite !fmap_cons. cbn in *. now rewrite IH, Hp.
Qed.

End LoopFacts2.

(** ** Further properties of the class *)

Section Extras.
Context {T K : Type} `{EqDecision T, EqDecision K}.
Implicit Types (this : SelectionSet T K) (e x y : SelectableWithIndex T)
  (es : list (SelectableWithIndex T)) (k : @Key T K).

(** X1: after a [select] that returns, an entry [y] is selected exactly when
    its key is the key of a supplied entry, or the set is in multi mode and
    [y] was selected before. *)
Theorem X1_isSelected_after_select dev es this y k :
  (select dev es this).1 = Normal tt ->
  (_getTrackedByValue dev y this).1 = Normal k ->
  exists b,
    (isSelected dev y (select dev es this).2).1 = Normal b /\
    (b = true <->
       (exists e, e ∈ es /\ (_getTrackedByValue dev e this).1 = Normal k) \/
       (_multiple this = true /\ (isSelected dev y this).1 = Normal true)).
Proof.
  intros Hret Hy. apply select_Normal_inv in Hret as [Hg Hall].
  apply derived_inv in Hy as [Hmy ->].
  rewrite select_returns by assumption. rewrite !isSelected_eq.
  cbn [snd fst returned _trackByFn _selectionMap]. rewrite Hmy. cbn [fst].
  eexists. split; [reflexivity|].
  rewrite has_selectAll.
  pose proof (supplied_key_iff dev es this (keyOf (_trackByFn this) y) Hall)
    as Hkeys.
  destruct (decide (keyOf (_trackByFn this) y ∈ (keyOf (_trackByFn this) <$> es)))
    as [Hin|Hnin].
  - split; [intros _; left; now apply Hkeys | reflexivity].
  - destruct (_multiple this); cbn [JsMap.has].
    + split.
      * intros Hh. right. split; [reflexivity | now rewrite Hh].
      * intros [Hex|[_ Hh]]; [apply Hkeys in Hex; contradiction|].
        congruence.
    + split; [discriminate|].
      intros [Hex|[Hm _]]; [apply Hkeys in Hex; contradiction | discriminate].
Qed.

(** X2: after a [deselect] that returns, an entry [y] is selected exactly
    when it was selected before and its key is the key of no supplied
    entry. *)
Theorem X2_isSelected_after_deselect dev es this y k :
  (deselect dev es this).1 = Normal tt ->
  (_getTrackedByValue dev y this).1 = Normal k ->
  exists b,
    (isSelected dev y (deselect dev es this).2).1 = Normal b /\
    (b = true <->
       (isSelected dev y this).1 = Normal true /\
       ~ exists e, e ∈ es /\ (_getTrackedByValue dev e this).1 = Normal k).
Proof.
  intros Hret Hy. apply deselect_Normal_inv in Hret as [Hg Hall].
  apply derived_inv in Hy as [Hmy ->].
  rewrite deselect_returns by assumption. rewrite !isSelected_eq.
  cbn [snd fst returned _trackByFn _selectionMap]. rewrite Hmy. cbn [fst].
  eexists. split; [reflexivity|].
  rewrite has_deselectAll.
  pose proof (supplied_key_iff dev es this (keyOf (_trackByFn this) y) Hall)
    as Hkeys.
  destruct (decide (keyOf (_trackByFn this) y ∈ (keyOf (_trackByFn this) <$> es)))
    as [Hin|Hnin].
  - split; [discriminate|]. intros [_ Hno]. exfalso. apply Hno.
    now apply Hkeys.
  - split.
    + intros Hh. split; [now rewrite Hh|]. intros Hex. apply Hnin.
      now apply Hkeys.
    + intros [Hh _]. congruence.
Qed.

(** X3: in multi mode [select] never removes or reorders: however the call
    ends, the snapshot after it is the snapshot before it followed by at
    most one new entry per supplied entry, each of them a supplied entry. *)
Theorem X3_select_multi_only_appends dev es this :
  _multiple this = true ->
  exists added,
    JsMap.values (_selectionMap (select dev es this).2) =
      JsMap.values (_selectionMap this) ++ added /\
    length added <= length es /\
    Forall (fun e => e ∈ es) added.
Proof.
  intros Hm. rewrite select_unfold, Hm.
  destruct (notMultiple dev this es).
  { exists []. cbn [snd]. rewrite app_nil_r.
    repeat split; [cbn; lia | constructor]. }
  destruct (select_loop_appends dev es [] this) as (added & Hmap & Hlen & Hall).
  exists (added.*2).
  assert (Hvals : JsMap.values (_selectionMap (select_loop dev es [] this).2) =
                  JsMap.values (_selectionMap this) ++ added.*2).
  { rewrite Hmap. unfold JsMap.values. apply fmap_app. }
  split; [|split].
  - destruct (select_loop dev es [] this) as [[ts|err] this']; exact Hvals.
  - now rewrite length_fmap.
  - apply Forall_fmap. eapply Forall_impl; [exact Hall|].
    intros p [Hin _]. exact Hin.
Qed.

(** X4: a [deselect] that returns removes exactly the entries stored under
    the key of a supplied entry; the entries left keep their order. *)
Theorem X4_deselect_removes_exactly_supplied_keys dev es this :
  (deselect dev es this).1 = Normal tt ->
  _selectionMap (deselect dev es this).2 =
    filter (fun p => p.1 ∉ (keyOf (_trackByFn this) <$> es))
      (_selectionMap this).
Proof.
  intros Hret. apply deselect_Normal_inv in Hret as [Hg Hall].
  rewrite deselect_returns by assumption. cbn [snd returned _selectionMap].
  apply deselectAll_filter.
Qed.

(** X5: a [select] that throws MissingIndex at some entry has already done
    its work for the entries before it: the map is the one [select] of
    those entries alone leaves, and no event tells of it. In single mode
    this means the previous selection is cleared silently. *)
Theorem X5_select_throws_midway dev es1 e es2 this :
  _multiple this = true \/ length (es1 ++ e :: es2) <= 1 ->
  Forall (fun e' => (_getTrackedByValue dev e' this).1 <> Throw MissingIndex) es1 ->
  (_getTrackedByValue dev e this).1 = Throw MissingIndex ->
  (select dev (es1 ++ e :: es2) this).1 = Throw MissingIndex /\
  _selectionMap (select dev (es1 ++ e :: es2) this).2 =
    _selectionMap (select dev es1 this).2 /\
  changed (select dev (es1 ++ e :: es2) this).2 = changed this /\
  (_multiple this = false ->
   _selectionMap (select dev (es1 ++ e :: es2) this).2 = []).
Proof.
  intros Hentry Hall He. apply missing_iff in He.
  assert (Hall' : Forall
    (fun e' => missingIndex dev (_trackByFn this) e' = false) es1).
  { eapply Forall_impl; [exact Hall|]. intros e'. apply not_missing_iff. }
  assert (Hg : notMultiple dev this (es1 ++ e :: es2) = false).
  { destruct Hentry as [Hm|Hlen]; [|now apply notMultiple_small].
    unfold notMultiple. now rewrite Hm. }
  assert (Hg1 : notMultiple dev this es1 = false).
  { destruct Hentry as [Hm|Hlen].
    - unfold notMultiple. now rewrite Hm.
    - apply notMultiple_small. rewrite length_app in Hlen. cbn in Hlen. lia. }
  rewrite (select_returns dev es1) by assumption.
  rewrite select_unfold, Hg.
  rewrite select_loop_midway;
    [|now destruct (_multiple this) | now destruct (_multiple this)].
  cbn [fst snd returned _selectionMap].
  split; [reflexivity|]. split; [|split].
  - destruct (_multiple this); reflexivity.
  - destruct (_multiple this); reflexivity.
  - intros Hm. destruct Hentry as [Hm'|Hlen]; [congruence|].
    destruct es1 as [|e1 es1]; [|cbn in Hlen; rewrite length_app in Hlen;
                                  cbn in Hlen; lia].
    rewrite Hm. reflexivity.
Qed.

(** X6: likewise a [deselect] that throws MissingIndex at some entry has
    already removed what [deselect] of the entries before it removes, and
    emits no event. *)
Theorem X6_deselect_throws_midway dev es1 e es2 this :
  _multiple this = true \/ length (es1 ++ e :: es2) <= 1 ->
  Forall (fun e' => (_getTrackedByValue dev e' this).1 <> Throw MissingIndex) es1 ->
  (_getTrackedByValue dev e this).1 = Throw MissingIndex ->
  (deselect dev (es1 ++ e :: es2) this).1 = Throw MissingIndex /\
  _selectionMap (deselect dev (es1 ++ e :: es2) this).2 =
    _selectionMap (deselect dev es1 this).2 /\
  changed (deselect dev (es1 ++ e :: es2) this).2 = changed this.
Proof.
  intros Hentry Hall He. apply missing_iff in He.
  assert (Hall' : Forall
    (fun e' => missingIndex dev (_trackByFn this) e' = false) es1).
  { eapply Forall_impl; [exact Hall|]. intros e'. apply not_missing_iff. }
  assert (Hg : notMultiple dev this (es1 ++ e :: es2) = false).
  { destruct Hentry as [Hm|Hlen]; [|now apply notMultiple_small].
    unfold notMultiple. now rewrite Hm. }
  assert (Hg1 : notMultiple dev this es1 = false).
  { destruct Hentry as [Hm|Hlen].
    - unfold notMultiple. now rewrite Hm.
    - apply notMultiple_small. rewrite length_app in Hlen. cbn in Hlen. lia. }
  rewrite (deselect_returns dev es1) by assumption.
  rewrite deselect_unfold, Hg.
  rewrite deselect_loop_midway by assumption.
  cbn [fst snd returned _selectionMap withMap changed]. repeat split.
Qed.

(** X7: a call returns exactly when neither guard fires: not (single mode,
    more than one entry, diagnostic flag on) and not (diagnostic flag on, a
    key function configured, a supplied entry without index). So with the
    flag off every call returns. *)
Theorem X7_call_returns_iff (c0 : Call T) this :
  (invoke c0 this).1 = Normal tt <->
  ~ (_multiple this = false /\ 1 < length (callEntries c0) /\
     callFlag c0 = true) /\
  ~ (callFlag c0 = true /\ _trackByFn this <> None /\
     Exists (fun e => index e = None) (callEntries c0)).
Proof.
  assert (Hmiss : forall dev es,
    Exists (fun e => missingIndex dev (_trackByFn this) e = true) es <->
    dev = true /\ _trackByFn this <> None /\
    Exists (fun e => index e = None) es).
  { intros dev es. destruct (_trackByFn this) as [f|].
    - rewrite Exists_missingIndex. split; [|tauto].
      intros [? ?]. repeat split; [assumption | discriminate | assumption].
    - split; [|intros (_ & Hc & _); congruence].
      rewrite Exists_exists. intros (e & _ & He). discriminate He. }
  destruct c0 as [dev es|dev es]; cbn [invoke callEntries callFlag];
    rewrite <- notMultiple_true_iff, <- Hmiss.
  - split.
    + intros Hret. apply select_Normal_inv in Hret as [Hg Hall].
      split; [congruence | now apply Forall_not_Exists_missingIndex].
    + intros [Hg Hno]. destruct (notMultiple dev this es) eqn:Hg';
        [contradiction|].
      destruct (derivable_dec dev (_trackByFn this) es) as [Hall|Hex];
        [|contradiction].
      now rewrite select_returns.
  - split.
    + intros Hret. apply deselect_Normal_inv in Hret as [Hg Hall].
      split; [congruence | now apply Forall_not_Exists_missingIndex].
    + intros [Hg Hno]. destruct (notMultiple dev this es) eqn:Hg';
        [contradiction|].
      destruct (derivable_dec dev (_trackByFn this) es) as [Hall|Hex];
        [|contradiction].
      now rewrite deselect_returns.
Qed.

(** X8: delivered events are never taken back or rewritten, a call adds at
    most one, and no call changes the mode or the key function. *)
Theorem X8_events_append_only (cs : list (Call T)) this :
  exists evs,
    changed (calls cs this) = changed this ++ evs /\
    length evs <= length cs /\
    _multiple (calls cs this) = _multiple this /\
    _trackByFn (calls cs this) = _trackByFn this.
Proof.
  revert this. induction cs as [|c cs IH]; intros this.
  - exists []. cbn. rewrite app_nil_r. repeat split. lia.
  - change (calls (c :: cs) this) with (calls cs (call c this)).
    destruct (IH (call c this)) as (evs & Hch & Hlen & Hm & Htb).
    destruct (call_config c this) as [Hm' Htb'].
    destruct (call_event c this) as [[_ Hev]|[_ Hev]].
    + eexists (_ :: evs). rewrite Hch, Hev, <- app_assoc.
      split; [reflexivity|]. cbn. repeat split; [lia | congruence | congruence].
    + exists evs. rewrite Hch, Hev.
      split; [reflexivity|]. cbn. repeat split; [lia | congruence | congruence].
Qed.

(** X10: in multi mode, selecting entries that are all selected already
    changes nothing: the entries stored under those keys stay, the supplied
    ones are dropped, and the event has equal [before] and [after]. *)
Theorem X10_select_selected_keeps_stored dev es this :
  _multiple this = true ->
  Forall (fun e => (isSelected dev e this).1 = Normal true) es ->
  (select dev es this).1 = Normal tt /\
  _selectionMap (select dev es this).2 = _selectionMap this /\
  changed (select dev es this).2 =
    changed this ++
    [ {| before := JsMap.values (_selectionMap this);
         after := JsMap.values (_selectionMap this) |} ].
Proof.
  intros Hm Hsel.
  assert (Hboth : Forall (fun e =>
    missingIndex dev (_trackByFn this) e = false /\
    JsMap.has (keyOf (_trackByFn this) e) (_selectionMap this) = true) es).
  { eapply Forall_impl; [exact Hsel|]. intros e He. cbn beta in He.
    rewrite isSelected_eq in He.
    destruct (missingIndex dev (_trackByFn this) e); cbn in He;
      [discriminate|].
    injection He as He. now split. }
  apply Forall_and in Hboth as [Hall Hhas].
  rewrite select_returns;
    [|unfold notMultiple; now rewrite Hm | exact Hall].
  rewrite Hm, selectAll_present by exact Hhas. repeat split.
Qed.

(** X11: in single mode a [select] of one entry that returns leaves exactly
    that entry, stored under its key, whatever was selected before, also an
    entry of the same key. *)
Theorem X11_single_select_stores_the_new_entry dev e this k :
  _multiple this = false ->
  (_getTrackedByValue dev e this).1 = Normal k ->
  (select dev [e] this).1 = Normal tt /\
  _selectionMap (select dev [e] this).2 = [(k, e)] /\
  changed (select dev [e] this).2 =
    changed this ++
    [ {| before := JsMap.values (_selectionMap this); after := [e] |} ].
Proof.
  intros Hm He. apply derived_inv in He as [Hme ->].
  rewrite select_returns;
    [|now apply notMultiple_small | now repeat constructor].
  rewrite Hm. repeat split.
Qed.

(** X12: in multi mode, [select(x)] of an entry that is not selected
    followed by [deselect(x)] gives back the map as it was, with two more
    events. *)
Theorem X12_select_then_deselect_restores dev x this :
  _multiple this = true ->
  (isSelected dev x this).1 = Normal false ->
  (deselect dev [x] (select dev [x] this).2).1 = Normal tt /\
  _selectionMap (deselect dev [x] (select dev [x] this).2).2 =
    _selectionMap this /\
  changed (deselect dev [x] (select dev [x] this).2).2 =
    changed this ++
    [ {| before := JsMap.values (_selectionMap this);
         after := JsMap.values (_selectionMap this) ++ [x] |};
      {| before := JsMap.values (_selectionMap this) ++ [x];
         after := JsMap.values (_selectionMap this) |} ].
Proof.
  intros Hm Hsel. rewrite isSelected_eq in Hsel.
  destruct (missingIndex dev (_trackByFn this) x) eqn:Hmx; [discriminate|].
  cbn in Hsel. injection Hsel as Hk.
  rewrite (select_returns dev [x] this);
    [|now apply notMultiple_small | now repeat constructor].
  rewrite deselect_returns;
    [|now apply notMultiple_small | now repeat constructor].
  cbn [fst snd returned _selectionMap _trackByFn _multiple changed
       selectAll deselectAll].
  rewrite Hm, Hk, set_absent by exact Hk.
  assert (Hin : JsMap.has (keyOf (_trackByFn this) x)
                  (_selectionMap this ++ [(keyOf (_trackByFn this) x, x)])
                = true).
  { rewrite <- set_absent by exact Hk. rewrite has_set. now rewrite decide_True. }
  rewrite Hin, delete_snoc_absent by exact Hk.
  unfold JsMap.values. rewrite fmap_app, <- app_assoc. repeat split.
Qed.

(** X13: in multi mode, [deselect(x)] followed by [select(x)] puts [x] at
    the end of the map: the entries of other keys keep their order and [x]
    follows them. *)
Theorem X13_deselect_then_select_moves_to_end dev x this k :
  _multiple this = true ->
  (_getTrackedByValue dev x this).1 = Normal k ->
  _selectionMap (select dev [x] (deselect dev [x] this).2).2 =
    filter (fun p => p.1 <> k) (_selectionMap this) ++ [(k, x)].
Proof.
  intros Hm Hx. apply derived_inv in Hx as [Hmx ->].
  rewrite (deselect_returns dev [x] this);
    [|now apply notMultiple_small | now repeat constructor].
  rewrite select_returns;
    [|now apply notMultiple_small | now repeat constructor].
  cbn [fst snd returned _selectionMap _trackByFn _multiple
       selectAll deselectAll].
  rewrite Hm, deselect_turn.
  assert (Hout : JsMap.has (keyOf (_trackByFn this) x)
                   (JsMap.delete (keyOf (_trackByFn this) x) (_selectionMap this))
                 = false).
  { rewrite has_delete. now rewrite decide_True. }
  rewrite Hout, set_absent by exact Hout. now rewrite delete_filter.
Qed.

(** X14: in every object the calls can produce from a new one, whether they
    returned or threw, keys are unique, every entry is stored under its own
    derived key, and so no two entries of the snapshot share a derived
    key. *)
Theorem X14_reachable_map_is_consistent (cs : list (Call T))
    (multiple : option bool) (trackByFn : option (@TrackByFunction T K)) :
  NoDup (JsMap.keys (_selectionMap (calls cs (new multiple trackByFn)))) /\
  Forall (fun p => p.1 = keyOf trackByFn p.2)
    (_selectionMap (calls cs (new multiple trackByFn))) /\
  NoDup (keyOf trackByFn <$>
         JsMap.values (_selectionMap (calls cs (new multiple trackByFn)))).
Proof.
  destruct (calls_consistent cs (new multiple trackByFn)) as [[Hnd Hkeyed] _].
  { split; [apply NoDup_nil_2 | constructor]. }
  cbn [new _trackByFn] in *. split; [exact Hnd|]. split; [exact Hkeyed|].
  now rewrite <- keys_of_keyed.
Qed.

(** X15: on such an object, [deselect(x)] of a selected entry removes
    exactly one entry. *)
Theorem X15_deselect_selected_removes_one (cs : list (Call T))
    (multiple : option bool) (trackByFn : option (@TrackByFunction T K)) dev x :
  (isSelected dev x (calls cs (new multiple trackByFn))).1 = Normal true ->
  JsMap.size (_selectionMap (calls cs (new multiple trackByFn))) =
  S (JsMap.size (_selectionMap
       (deselect dev [x] (calls cs (new multiple trackByFn))).2)).
Proof.
  pose proof (calls_NoDup cs multiple trackByFn) as Hnd.
  generalize dependent (calls cs (new multiple trackByFn : SelectionSet T K)).
  intros this Hnd Hsel. rewrite isSelected_eq in Hsel.
  destruct (missingIndex dev (_trackByFn this) x) eqn:Hmx; [discriminate|].
  cbn in Hsel. injection Hsel as Hk.
  rewrite deselect_returns;
    [|now apply notMultiple_small | now repeat constructor].
  cbn [snd returned _selectionMap deselectAll]. rewrite Hk.
  now apply size_delete_present.
Qed.

(** X16: [deselect] is idempotent: after a [deselect] that returns, the same
    call again returns, leaves the map as it is and emits an event with equal
    [before] and [after]. *)
Theorem X16_deselect_is_idempotent dev es this :
  (deselect dev es this).1 = Normal tt ->
  (deselect dev es (deselect dev es this).2).1 = Normal tt /\
  _selectionMap (deselect dev es (deselect dev es this).2).2 =
    _selectionMap (deselect dev es this).2 /\
  changed (deselect dev es (deselect dev es this).2).2 =
    changed (deselect dev es this).2 ++
    [ {| before := JsMap.values (_selectionMap (deselect dev es this).2);
         after := JsMap.values (_selectionMap (deselect dev es this).2) |} ].
Proof.
  intros Hret. apply deselect_Normal_inv in Hret as [Hg Hall].
  rewrite (deselect_returns dev es this) by assumption. cbn [snd].
  rewrite deselect_returns by assumption.
  cbn [fst snd returned _selectionMap _trackByFn _multiple changed].
  rewrite (deselectAll_absent (_trackByFn this) es
             (deselectAll (_trackByFn this) es (_selectionMap this))).
  - repeat split.
  - apply Forall_forall. intros e Hin. now apply deselectAll_deselects.
Qed.

(** X17: on an object the calls can produce from a new one, [isSelected(y)]
    says whether the snapshot holds an entry with the derived key of [y]. *)
Theorem X17_isSelected_agrees_with_snapshot (cs : list (Call T))
    (multiple : option bool) (trackByFn : option (@TrackByFunction T K))
    dev y k :
  (_getTrackedByValue dev y (calls cs (new multiple trackByFn))).1 = Normal k ->
  (isSelected dev y (calls cs (new multiple trackByFn))).1 = Normal true <->
  exists e,
    e ∈ JsMap.values (_selectionMap (calls cs (new multiple trackByFn))) /\
    keyOf trackByFn e = k.
Proof.
  destruct (calls_consistent cs (new multiple trackByFn)) as [Hc Htb].
  { split; [apply NoDup_nil_2 | constructor]. }
  cbn [new _trackByFn] in Hc, Htb.
  generalize dependent (calls cs (new multiple trackByFn : SelectionSet T K)).
  intros this Hc Htb Hy. apply derived_inv in Hy as [Hmy ->].
  rewrite isSelected_eq, Hmy. cbn [fst]. rewrite Htb.
  rewrite <- (has_consistent trackByFn (_selectionMap this) _ Hc).
  split; congruence.
Qed.
End Extras.

(** ** The further properties on the sample objects *)

Lemma X1_witness :
  exists b,
    (isSelected true Sample.b
       (select true [Sample.a; Sample.b] Sample.multi).2).1 = Normal b /\
    (b = true <->
       (exists e, e ∈ [Sample.a; Sample.b] /\
                  (_getTrackedByValue true e Sample.multi).1 = Normal (inl 2%Z)) \/
       (_multiple Sample.multi = true /\
        (isSelected true Sample.b Sample.multi).1 = Normal true)).
Proof.
  apply (X1_isSelected_after_select true [Sample.a; Sample.b] Sample.multi
           Sample.b (inl 2%Z)); reflexivity.
Defined.

Lemma X2_witness :
  exists b,
    (isSelected true Sample.a
       (deselect true [Sample.b]
          (select true [Sample.a; Sample.b] Sample.multi).2).2).1 = Normal b /\
    (b = true <->
       (isSelected true Sample.a
          (select true [Sample.a; Sample.b] Sample.multi).2).1 = Normal true /\
       ~ exists e, e ∈ [Sample.b] /\
           (_getTrackedByValue true e
              (select true [Sample.a; Sample.b] Sample.multi).2).1
           = Normal (inl 1%Z)).
Proof.
  apply (X2_isSelected_after_deselect true [Sample.b]
           (select true [Sample.a; Sample.b] Sample.multi).2
           Sample.a (inl 1%Z)); reflexivity.
Defined.

Lemma X3_witness :
  exists added,
    JsMap.values (_selectionMap
      (select true [Sample.b; Sample.noIndex; Sample.c]
         (select true [Sample.a] Sample.multiTracked).2).2) =
      JsMap.values (_selectionMap (select true [Sample.a] Sample.multiTracked).2)
      ++ added /\
    length added <= 3 /\
    Forall (fun e => e ∈ [Sample.b; Sample.noIndex; Sample.c]) added.
Proof.
  apply (X3_select_multi_only_appends true
           [Sample.b; Sample.noIndex; Sample.c]
           (select true [Sample.a] Sample.multiTracked).2).
  reflexivity.
Defined.

Lemma X4_witness :
  _selectionMap
    (deselect true [Sample.b; Sample.b]
       (select true [Sample.a; Sample.b; Sample.c] Sample.multi).2).2 =
  [(inl 1%Z, Sample.a); (inl 3%Z, Sample.c)].
Proof.
  etransitivity.
  - apply (X4_deselect_removes_exactly_supplied_keys true [Sample.b; Sample.b]
             (select true [Sample.a; Sample.b; Sample.c] Sample.multi).2).
    reflexivity.
  - reflexivity.
Defined.

Lemma X5_witness :
  (select true [Sample.noIndex]
     (select true [Sample.a] Sample.singleTracked).2).1 = Throw MissingIndex /\
  _selectionMap (select true [Sample.noIndex]
                   (select true [Sample.a] Sample.singleTracked).2).2 = [] /\
  changed (select true [Sample.noIndex]
             (select true [Sample.a] Sample.singleTracked).2).2 =
    changed (select true [Sample.a] Sample.singleTracked).2.
Proof.
  destruct (X5_select_throws_midway true [] Sample.noIndex []
              (select true [Sample.a] Sample.singleTracked).2)
    as (Hthrow & _ & Hch & Hclear).
  - right. cbn. lia.
  - constructor.
  - reflexivity.
  - split; [exact Hthrow|]. split; [apply Hclear; reflexivity | exact Hch].
Defined.

Lemma X6_witness :
  (deselect true [Sample.a; Sample.noIndex; Sample.b]
     (select true [Sample.a; Sample.b] Sample.multiTracked).2).1
    = Throw MissingIndex /\
  _selectionMap
    (deselect true [Sample.a; Sample.noIndex; Sample.b]
       (select true [Sample.a; Sample.b] Sample.multiTracked).2).2 =
  _selectionMap
    (deselect true [Sample.a]
       (select true [Sample.a; Sample.b] Sample.multiTracked).2).2 /\
  changed
    (deselect true [Sample.a; Sample.noIndex; Sample.b]
       (select true [Sample.a; Sample.b] Sample.multiTracked).2).2 =
  changed (select true [Sample.a; Sample.b] Sample.multiTracked).2.
Proof.
  apply (X6_deselect_throws_midway true [Sample.a] Sample.noIndex [Sample.b]
           (select true [Sample.a; Sample.b] Sample.multiTracked).2).
  - left. reflexivity.
  - repeat constructor. intros Hc. vm_compute in Hc. discriminate Hc.
  - reflexivity.
Defined.


Lemma X10_witness :
  (select true [Sample.entry 1 None]
     (select true [Sample.a; Sample.b] Sample.multi).2).1 = Normal tt /\
  _selectionMap (select true [Sample.entry 1 None]
                   (select true [Sample.a; Sample.b] Sample.multi).2).2 =
    _selectionMap (select true [Sample.a; Sample.b] Sample.multi).2 /\
  changed (select true [Sample.entry 1 None]
             (select true [Sample.a; Sample.b] Sample.multi).2).2 =
    changed (select true [Sample.a; Sample.b] Sample.multi).2 ++
    [ {| before := [Sample.a; Sample.b]; after := [Sample.a; Sample.b] |} ].
Proof.
  refine (X10_select_selected_keeps_stored true [Sample.entry 1 None]
            (select true [Sample.a; Sample.b] Sample.multi).2 _ _).
  - reflexivity.
  - repeat constructor.
Defined.

Lemma X11_witness :
  (select true [Sample.entry 11 (Some 5%Z)]
     (select true [Sample.a] Sample.singleTracked).2).1 = Normal tt /\
  _selectionMap (select true [Sample.entry 11 (Some 5%Z)]
                   (select true [Sample.a] Sample.singleTracked).2).2 =
    [(inr 1%Z, Sample.entry 11 (Some 5%Z))] /\
  changed (select true [Sample.entry 11 (Some 5%Z)]
             (select true [Sample.a] Sample.singleTracked).2).2 =
    changed (select true [Sample.a] Sample.singleTracked).2 ++
    [ {| before := [Sample.a]; after := [Sample.entry 11 (Some 5%Z)] |} ].
Proof.
  apply (X11_single_select_stores_the_new_entry true
           (Sample.entry 11 (Some 5%Z))
           (select true [Sample.a] Sample.singleTracked).2 (inr 1%Z));
    reflexivity.
Defined.

Lemma X12_witness :
  _selectionMap
    (deselect true [Sample.c]
       (select true [Sample.c]
          (select true [Sample.a; Sample.b] Sample.multi).2).2).2 =
  _selectionMap (select true [Sample.a; Sample.b] Sample.multi).2.
Proof.
  apply (X12_select_then_deselect_restores true Sample.c
           (select true [Sample.a; Sample.b] Sample.multi).2);
    reflexivity.
Defined.

Lemma X13_witness :
  _selectionMap
    (select true [Sample.a]
       (deselect true [Sample.a]
          (select true [Sample.a; Sample.b; Sample.c] Sample.multi).2).2).2 =
  [(inl 2%Z, Sample.b); (inl 3%Z, Sample.c); (inl 1%Z, Sample.a)].
Proof.
  etransitivity.
  - apply (X13_deselect_then_select_moves_to_end true Sample.a
             (select true [Sample.a; Sample.b; Sample.c] Sample.multi).2
             (inl 1%Z));
      reflexivity.
  - reflexivity.
Defined.

Lemma X15_witness :
  JsMap.size (_selectionMap
    (calls [CallSelect true [Sample.a]; CallSelect true [Sample.b]]
       (new (Some true) None : SelectionSet Z Z))) =
  S (JsMap.size (_selectionMap
       (deselect true [Sample.a]
          (calls [CallSelect true [Sample.a]; CallSelect true [Sample.b]]
             (new (Some true) None : SelectionSet Z Z))).2)).
Proof.
  apply (X15_deselect_selected_removes_one
           [CallSelect true [Sample.a]; CallSelect true [Sample.b]]
           (Some true) None true Sample.a).
  reflexivity.
Defined.

Lemma X16_witness :
  (deselect false [Sample.a; Sample.c]
     (deselect false [Sample.a; Sample.c]
        (select false [Sample.a; Sample.b] Sample.single).2).2).1 = Normal tt /\
  _selectionMap
    (deselect false [Sample.a; Sample.c]
       (deselect false [Sample.a; Sample.c]
          (select false [Sample.a; Sample.b] Sample.single).2).2).2 =
  _selectionMap
    (deselect false [Sample.a; Sample.c]
       (select false [Sample.a; Sample.b] Sample.single).2).2 /\
  changed
    (deselect false [Sample.a; Sample.c]
       (deselect false [Sample.a; Sample.c]
          (select false [Sample.a; Sample.b] Sample.single).2).2).2 =
  changed
    (deselect false [Sample.a; Sample.c]
       (select false [Sample.a; Sample.b] Sample.single).2).2 ++
  [ {| before := [Sample.b]; after := [Sample.b] |} ].
Proof.
  refine (X16_deselect_is_idempotent false [Sample.a; Sample.c]
            (select false [Sample.a; Sample.b] Sample.single).2 _).
  reflexivity.
Defined.

Lemma X17_witness :
  (isSelected true (Sample.entry 12 (Some 9%Z))
     (calls [CallSelect true [Sample.a]; CallSelect true [Sample.b]]
        (new (Some true) (Some Sample.byResidue)))).1 = Normal true <->
  exists e,
    e ∈ JsMap.values (_selectionMap
          (calls [CallSelect true [Sample.a]; CallSelect true [Sample.b]]
             (new (Some true) (Some Sample.byResidue)))) /\
    keyOf (Some Sample.byResidue) e = inr 2%Z.
Proof.
  apply (X17_isSelected_agrees_with_snapshot
           [CallSelect true [Sample.a]; CallSelect true [Sample.b]]
           (Some true) (Some Sample.byResidue) true
           (Sample.entry 12 (Some 9%Z)) (inr 2%Z)).
  reflexivity.
Defined.
